(** * inbox.mailsync.service: the SyncService reconciliation loop

    A shallow embedding of [src/inbox/mailsync/service.py] and the
    properties of its three operations, [poll], [start_sync] and
    [stop_sync].

    The Python methods mutate [self] and talk to collaborators (the
    account store, the assignment queue, the monitor greenlets, the
    heartbeat store, the logger).  They are embedded in a small
    reader/state/exception monad [M]: the reader part is the configuration
    of the process and the behaviour of the environment during the call,
    the state part is the fields of [self] together with the collaborators'
    state and the trace of the calls made to them, and the exception part
    is Python's [raise].  The environment says which database shards are
    down and whether they fail at the read of the row or at the commits,
    which monitors raise, and whether the assignment view has caught up
    with a claim. *)

From Stdlib Require Import ZArith QArith String List Bool Lia.
From stdpp Require Import base gmap sets list strings.

Local Open Scope Z_scope.
Local Open Scope string_scope.
Local Open Scope list_scope.

(** ** Data model *)

(** The three kinds of monitor a sync service keeps per account. *)
Inductive kind := Email | Contacts | Events.

(** The class instantiated for a monitor: [monitor_cls_for[acc.provider]],
    [ContactSync], [EventSync] or [GoogleEventSync]. *)
Inductive monitor_cls :=
  | SyncMonitorFor (provider : string)
  | ContactSync
  | EventSync
  | GoogleEventSync.

Inductive status := Constructed | Running | Killed.

(** A monitor greenlet.  Handles are positions in the list of all the
    monitors ever constructed, so that two monitors of the same account
    are told apart. *)
Record Monitor := {
  m_kind : kind;
  m_cls : monitor_cls;
  m_account : Z;
  m_status : status;
}.

Abbreviation handle := nat.

Inductive marker := SyncStarted | SyncStopped.

(** A row of the account table, with the attributes [service.py] reads or
    writes.  [info_contacts] and [info_events] are the truth values of
    [acc.provider_info.get('contacts', None)] and of
    [acc.provider_info.get('events', None)].  The primary key is not a
    field: [query(Account).get(account_id)] returns the row stored under
    [account_id], so [acc.id] is [account_id]. *)
Record Account := {
  email_address : string;
  provider : string;
  verbose_provider : string;
  namespace_id : Z;
  sync_email : bool;
  sync_contacts : bool;
  sync_events : bool;
  info_contacts : bool;
  info_events : bool;
  sync_host : option string;
  sync_should_run : bool;
  sync_marker : option marker;
}.

Inductive exn := OperationalError | AttributeError | MonitorError.

Inductive result (A : Type) :=
  | Ok (a : A)
  | Raise (e : exn).
Arguments Ok {A} a.
Arguments Raise {A} e.

Inductive level := Info | Error.

Inductive op := OpStart | OpStop.

(** What the service does to its collaborators, in the order it does it.
    [EvCall o a] marks control entering [start_sync a] or [stop_sync a]. *)
Inductive event :=
  | EvCall (o : op) (account_id : Z)
  | EvLog (l : level) (msg : string) (account_id : option Z)
  | EvLogUncaught
  | EvGauge (n : nat)
  | EvClaimNext (pid : string) (r : option Z)
  | EvUnassign (account_id : Z) (pid : string)
  | EvConstruct (k : kind) (cls : monitor_cls) (h : handle) (account_id : Z)
  | EvMonitorStart (h : handle)
  | EvKill (h : handle)
  | EvSyncStarted (account_id : Z)
  | EvSyncStopped (account_id : Z) (pid : string)
  | EvCommit
  | EvClearHeartbeat (account_id : Z).

Inductive stage := AtConstruct | AtStart.

(** Where a database shard that is down makes a call fail: at the read of
    the row, or, the row read, at every [commit()] of the call. *)
Inductive db_op := AtRead | AtCommit.

(** The configuration of the process ([__init__] and the module constant
    [USE_GOOGLE_PUSH_NOTIFICATIONS]) and the behaviour of the environment
    during one call: the sample [psutil.cpu_percent(percpu=True)] returns,
    the accounts whose database shard raises [OperationalError] and the
    operation at which it does, the accounts whose claim the assignment
    view shows as soon as it is made, and the monitors whose constructor or
    whose [start()] raises.  Utilisations are Python floats; a finite float
    is a rational and [>] compares exactly, so the sample is a list of
    rationals. *)
Record Env := {
  host : string;
  cpu_id : Z;
  process_identifier : string;
  stealing_enabled : bool;
  USE_GOOGLE_PUSH_NOTIFICATIONS : bool;
  cpu_percent : list Q;
  db_down : Z -> bool;
  db_down_at : Z -> db_op;
  claim_visible : Z -> bool;
  monitor_fault : kind -> Z -> option stage;
}.

(** The read of the row of the account raises [OperationalError]. *)
Definition read_fails (env : Env) (account_id : Z) : bool :=
  if db_down env account_id then
    match db_down_at env account_id with
    | AtRead => true
    | AtCommit => false
    end
  else false.

(** The row of the account can be read and [commit()] raises
    [OperationalError]. *)
Definition commit_fails (env : Env) (account_id : Z) : bool :=
  if db_down env account_id then
    match db_down_at env account_id with
    | AtRead => false
    | AtCommit => true
    end
  else false.

(** The fields of [self] that change ([syncing_accounts] and the three
    monitor dictionaries), and the state of the collaborators. *)
Record State := {
  syncing_accounts : gset Z;
  email_sync_monitors : gmap Z handle;
  contact_sync_monitors : gmap Z handle;
  event_sync_monitors : gmap Z handle;
  db : gmap Z Account;
  session : gmap Z Account;
  assignments : gmap Z string;
  unclaimed : list Z;
  heartbeats : gset Z;
  monitors : list Monitor;
  trace : list event;
}.

Definition set_syncing_accounts (v : gset Z) (s : State) : State :=
  {| syncing_accounts := v;
     email_sync_monitors := email_sync_monitors s;
     contact_sync_monitors := contact_sync_monitors s;
     event_sync_monitors := event_sync_monitors s;
     db := db s; session := session s; assignments := assignments s;
     unclaimed := unclaimed s; heartbeats := heartbeats s;
     monitors := monitors s; trace := trace s |}.

Definition set_email_sync_monitors (v : gmap Z handle) (s : State) : State :=
  {| syncing_accounts := syncing_accounts s;
     email_sync_monitors := v;
     contact_sync_monitors := contact_sync_monitors s;
     event_sync_monitors := event_sync_monitors s;
     db := db s; session := session s; assignments := assignments s;
     unclaimed := unclaimed s; heartbeats := heartbeats s;
     monitors := monitors s; trace := trace s |}.

Definition set_contact_sync_monitors (v : gmap Z handle) (s : State) : State :=
  {| syncing_accounts := syncing_accounts s;
     email_sync_monitors := email_sync_monitors s;
     contact_sync_monitors := v;
     event_sync_monitors := event_sync_monitors s;
     db := db s; session := session s; assignments := assignments s;
     unclaimed := unclaimed s; heartbeats := heartbeats s;
     monitors := monitors s; trace := trace s |}.

Definition set_event_sync_monitors (v : gmap Z handle) (s : State) : State :=
  {| syncing_accounts := syncing_accounts s;
     email_sync_monitors := email_sync_monitors s;
     contact_sync_monitors := contact_sync_monitors s;
     event_sync_monitors := v;
     db := db s; session := session s; assignments := assignments s;
     unclaimed := unclaimed s; heartbeats := heartbeats s;
     monitors := monitors s; trace := trace s |}.

Definition set_db (v : gmap Z Account) (s : State) : State :=
  {| syncing_accounts := syncing_accounts s;
     email_sync_monitors := email_sync_monitors s;
     contact_sync_monitors := contact_sync_monitors s;
     event_sync_monitors := event_sync_monitors s;
     db := v; session := session s; assignments := assignments s;
     unclaimed := unclaimed s; heartbeats := heartbeats s;
     monitors := monitors s; trace := trace s |}.

Definition set_session (v : gmap Z Account) (s : State) : State :=
  {| syncing_accounts := syncing_accounts s;
     email_sync_monitors := email_sync_monitors s;
     contact_sync_monitors := contact_sync_monitors s;
     event_sync_monitors := event_sync_monitors s;
     db := db s; session := v; assignments := assignments s;
     unclaimed := unclaimed s; heartbeats := heartbeats s;
     monitors := monitors s; trace := trace s |}.

Definition set_assignments (v : gmap Z string) (s : State) : State :=
  {| syncing_accounts := syncing_accounts s;
     email_sync_monitors := email_sync_monitors s;
     contact_sync_monitors := contact_sync_monitors s;
     event_sync_monitors := event_sync_monitors s;
     db := db s; session := session s; assignments := v;
     unclaimed := unclaimed s; heartbeats := heartbeats s;
     monitors := monitors s; trace := trace s |}.

Definition set_unclaimed (v : list Z) (s : State) : State :=
  {| syncing_accounts := syncing_accounts s;
     email_sync_monitors := email_sync_monitors s;
     contact_sync_monitors := contact_sync_monitors s;
     event_sync_monitors := event_sync_monitors s;
     db := db s; session := session s; assignments := assignments s;
     unclaimed := v; heartbeats := heartbeats s;
     monitors := monitors s; trace := trace s |}.

Definition set_heartbeats (v : gset Z) (s : State) : State :=
  {| syncing_accounts := syncing_accounts s;
     email_sync_monitors := email_sync_monitors s;
     contact_sync_monitors := contact_sync_monitors s;
     event_sync_monitors := event_sync_monitors s;
     db := db s; session := session s; assignments := assignments s;
     unclaimed := unclaimed s; heartbeats := v;
     monitors := monitors s; trace := trace s |}.

Definition set_monitors (v : list Monitor) (s : State) : State :=
  {| syncing_accounts := syncing_accounts s;
     email_sync_monitors := email_sync_monitors s;
     contact_sync_monitors := contact_sync_monitors s;
     event_sync_monitors := event_sync_monitors s;
     db := db s; session := session s; assignments := assignments s;
     unclaimed := unclaimed s; heartbeats := heartbeats s;
     monitors := v; trace := trace s |}.

Definition set_trace (v : list event) (s : State) : State :=
  {| syncing_accounts := syncing_accounts s;
     email_sync_monitors := email_sync_monitors s;
     contact_sync_monitors := contact_sync_monitors s;
     event_sync_monitors := event_sync_monitors s;
     db := db s; session := session s; assignments := assignments s;
     unclaimed := unclaimed s; heartbeats := heartbeats s;
     monitors := monitors s; trace := v |}.

(** The dictionary of [self] that holds the monitors of kind [k]. *)
Definition monitors_of (k : kind) (s : State) : gmap Z handle :=
  match k with
  | Email => email_sync_monitors s
  | Contacts => contact_sync_monitors s
  | Events => event_sync_monitors s
  end.

Definition set_monitors_of (k : kind) (v : gmap Z handle) (s : State) : State :=
  match k with
  | Email => set_email_sync_monitors v s
  | Contacts => set_contact_sync_monitors v s
  | Events => set_event_sync_monitors v s
  end.

(** [__init__]: nothing syncing, no monitor recorded. *)
Definition init (s : State) : State :=
  set_syncing_accounts ∅
    (set_email_sync_monitors ∅
       (set_contact_sync_monitors ∅ (set_event_sync_monitors ∅ s))).

(** ** The monad *)

Definition M (A : Type) : Type := Env -> State -> result A * State.

Definition ret {A} (a : A) : M A := fun _ s => (Ok a, s).

Definition bind {A B} (m : M A) (f : A -> M B) : M B :=
  fun env s =>
    match m env s with
    | (Ok a, s') => f a env s'
    | (Raise e, s') => (Raise e, s')
    end.

#[global] Instance M_ret : MRet M := @ret.
#[global] Instance M_bind : MBind M := fun A B f m => bind m f.

Definition raise {A} (e : exn) : M A := fun _ s => (Raise e, s).

(** [try: body except <classes>: handler]. *)
Definition try_except (catches : exn -> bool) (body handler : M unit) : M unit :=
  fun env s =>
    match body env s with
    | (Ok a, s') => (Ok a, s')
    | (Raise e, s') => if catches e then handler env s' else (Raise e, s')
    end.

Definition gets {A} (f : State -> A) : M A := fun _ s => (Ok (f s), s).
Definition asks {A} (f : Env -> A) : M A := fun env s => (Ok (f env), s).
Definition modify (f : State -> State) : M unit := fun _ s => (Ok tt, f s).

Definition when (b : bool) (m : M unit) : M unit := if b then m else ret tt.

(** [for x in l: f x]; an exception leaves the loop. *)
Fixpoint for_each {A} (l : list A) (f : A -> M unit) : M unit :=
  match l with
  | [] => ret tt
  | x :: l' => bind (f x) (fun _ => for_each l' f)
  end.

Definition outcome {A} (r : result A * State) : result A := fst r.
Definition final {A} (r : result A * State) : State := snd r.

(** ** Collaborators *)

Definition emit (e : event) : M unit :=
  modify (fun s => set_trace (trace s ++ [e]) s).

(** [self.log.info(msg, account_id=...)] and [self.log.error(...)]. *)
Definition log (l : level) (msg : string) (account_id : option Z) : M unit :=
  emit (EvLog l msg account_id).

(** [log_uncaught_errors()]. *)
Definition log_uncaught_errors : M unit := emit EvLogUncaught.

(** [db_session.query(Account).get(account_id)]: the row, loaded into the
    session, or [None]; [OperationalError] when the shard does not answer
    the read. *)
Definition query_get (account_id : Z) : M (option Account) :=
  down ← asks (fun env => read_fails env account_id);
  if (down : bool) then raise OperationalError
  else
    row ← gets (fun s => db s !! account_id);
    match row with
    | Some acc =>
        modify (fun s => set_session (<[account_id := acc]> (session s)) s);;
        mret (Some acc)
    | None => mret None
    end.

(** An assignment to attributes of the object loaded under [account_id]. *)
Definition update_acc (account_id : Z) (f : Account -> Account) : M unit :=
  modify (fun s => set_session (alter f account_id (session s)) s).

(** [db_session.commit()] on the session of the shard of [account_id]: the
    objects of the session are written back, or the commit raises
    [OperationalError] and nothing is written. *)
Definition commit (account_id : Z) : M unit :=
  down ← asks (fun env => commit_fails env account_id);
  if (down : bool) then raise OperationalError
  else
    modify (fun s => set_db (session s ∪ db s) s);;
    emit EvCommit.

(** Modelled from the spec: [session_scope] ([inbox.models.session]) is not
    among the sources.  The spec has [stop] persist the sync-stopped marker,
    and [stop_sync] has no commit of its own, so leaving the scope normally
    commits the session, and that commit can raise the transient storage
    error as any other; a scope left by an exception writes nothing.  Each
    scope works on a session of its own. *)
Definition session_scope {A} (account_id : Z) (body : M A) : M A :=
  fun env s =>
    let outer := session s in
    match body env (set_session ∅ s) with
    | (Ok a, s1) =>
        match commit account_id env s1 with
        | (Ok _, s2) => (Ok a, set_session outer s2)
        | (Raise e, s2) => (Raise e, set_session outer s2)
        end
    | (Raise e, s1) => (Raise e, set_session outer s1)
    end.

(** [with self.semaphore]: a [BoundedSemaphore(1)].  [poll] is the only
    caller of [start_sync] and [stop_sync] and calls them one after the
    other, so the semaphore is free whenever it is asked for. *)
Definition with_semaphore {A} (body : M A) : M A := body.

(** Modelled from the spec: [Account.sync_started] ([inbox.models]) is not
    among the sources; it records the sync-started marker. *)
Definition sync_started (acc : Account) : Account :=
  {| email_address := email_address acc; provider := provider acc;
     verbose_provider := verbose_provider acc;
     namespace_id := namespace_id acc; sync_email := sync_email acc;
     sync_contacts := sync_contacts acc; sync_events := sync_events acc;
     info_contacts := info_contacts acc; info_events := info_events acc;
     sync_host := sync_host acc; sync_should_run := sync_should_run acc;
     sync_marker := Some SyncStarted |}.

(** Modelled from the spec: [Account.sync_stopped] ([inbox.models]) is not
    among the sources; it records the sync-stopped marker, and its result
    is the truth value [stop_sync] tests before logging. *)
Definition sync_stopped (requesting_host : string) (acc : Account) : Account * bool :=
  ({| email_address := email_address acc; provider := provider acc;
      verbose_provider := verbose_provider acc;
      namespace_id := namespace_id acc; sync_email := sync_email acc;
      sync_contacts := sync_contacts acc; sync_events := sync_events acc;
      info_contacts := info_contacts acc; info_events := info_events acc;
      sync_host := sync_host acc; sync_should_run := sync_should_run acc;
      sync_marker := Some SyncStopped |}, true).

(** [acc.sync_host = v]. *)
Definition with_sync_host (v : option string) (acc : Account) : Account :=
  {| email_address := email_address acc; provider := provider acc;
     verbose_provider := verbose_provider acc;
     namespace_id := namespace_id acc; sync_email := sync_email acc;
     sync_contacts := sync_contacts acc; sync_events := sync_events acc;
     info_contacts := info_contacts acc; info_events := info_events acc;
     sync_host := v; sync_should_run := sync_should_run acc;
     sync_marker := sync_marker acc |}.

(** Modelled from the spec: [clear_heartbeat_status] ([inbox.heartbeat])
    is not among the sources; [clear(accountId)] is idempotent. *)
Definition clear_heartbeat_status (account_id : Z) : M unit :=
  modify (fun s => set_heartbeats (heartbeats s ∖ {[account_id]}) s);;
  emit (EvClearHeartbeat account_id).

(** Modelled from the spec: [QueueClient] ([inbox.scheduling.queue]) is not
    among the sources.  [claim_next] acquires one unassigned account for the
    process and returns it, or nothing when no work is available.  The
    client is eventually consistent: the claim is in the view [assigned]
    reads next only when the view has caught up ([claim_visible]);
    otherwise the view is as it was, and shows the claim at a later tick,
    with the other moves of the collaborators between two ticks. *)
Definition claim_next (pid : string) : M (option Z) :=
  q ← gets unclaimed;
  match q with
  | [] => emit (EvClaimNext pid None);; mret None
  | a :: q' =>
      visible ← asks (fun env => claim_visible env a);
      modify (fun s =>
        set_unclaimed q'
          (if (visible : bool)
           then set_assignments (<[a := pid]> (assignments s)) s
           else s));;
      emit (EvClaimNext pid (Some a));;
      mret (Some a)
  end.

(** Modelled from the spec: [QueueClient.assigned], the current assignment
    view, from account id to process identifier. *)
Definition assigned : M (gmap Z string) := gets assignments.

(** Modelled from the spec: [QueueClient.unassign] releases ownership and
    is a no-op when the process does not own the account; the
    acknowledgment tells which. *)
Definition unassign (account_id : Z) (pid : string) : M bool :=
  owner ← gets (fun s => assignments s !! account_id);
  emit (EvUnassign account_id pid);;
  if decide (owner = Some pid) then
    modify (fun s => set_assignments (delete account_id (assignments s)) s);;
    mret true
  else mret false.

(** The constructor of a monitor class.  The new greenlet gets the next
    handle.  A constructor that raises (a provider missing from
    [monitor_cls_for] included) constructs nothing. *)
Definition construct (k : kind) (cls : monitor_cls) (account_id : Z) : M handle :=
  fault ← asks (fun env => monitor_fault env k account_id);
  match fault with
  | Some AtConstruct => raise MonitorError
  | _ =>
      h ← gets (fun s => length (monitors s));
      modify (fun s =>
        set_monitors (monitors s ++ [ {| m_kind := k; m_cls := cls;
                                         m_account := account_id;
                                         m_status := Constructed |} ]) s);;
      emit (EvConstruct k cls h account_id);;
      mret h
  end.

Definition with_status (st : status) (m : Monitor) : Monitor :=
  {| m_kind := m_kind m; m_cls := m_cls m; m_account := m_account m;
     m_status := st |}.

(** [monitor.start()]. *)
Definition monitor_start (k : kind) (account_id : Z) (h : handle) : M unit :=
  fault ← asks (fun env => monitor_fault env k account_id);
  match fault with
  | Some AtStart => raise MonitorError
  | _ =>
      modify (fun s => set_monitors (alter (with_status Running) h (monitors s)) s);;
      emit (EvMonitorStart h)
  end.

(** [monitor.kill()]. *)
Definition monitor_kill (h : handle) : M unit :=
  modify (fun s => set_monitors (alter (with_status Killed) h (monitors s)) s);;
  emit (EvKill h).

(** ** SyncService *)

(** The three steps [start_sync] takes for each kind of monitor:
    [monitor = cls(...)], [self.<k>_sync_monitors[acc.id] = monitor],
    [monitor.start()]. *)
Definition launch (k : kind) (cls : monitor_cls) (account_id : Z) : M unit :=
  monitor ← construct k cls account_id;
  modify (fun s => set_monitors_of k (<[account_id := monitor]> (monitors_of k s)) s);;
  monitor_start k account_id monitor.

(** The class of the events monitor (lines 165-175). *)
Definition event_sync_cls (push : bool) (acc : Account) : monitor_cls :=
  if push && bool_decide (provider acc = "gmail") then GoogleEventSync else EventSync.

Definition start_sync (account_id : Z) : M unit :=
  emit (EvCall OpStart account_id);;
  with_semaphore (session_scope account_id (
    acc ← query_get account_id;
    match acc with
    | None => log Error "no such account" (Some account_id)
    | Some acc =>
        log Info "starting sync" (Some account_id);;
        syncing ← gets syncing_accounts;
        if decide (account_id ∉ syncing) then
          try_except (fun _ => true)
            (pid ← asks process_identifier;
             update_acc account_id (with_sync_host (Some pid));;
             when (sync_email acc)
               (launch Email (SyncMonitorFor (provider acc)) account_id);;
             when (info_contacts acc && sync_contacts acc)
               (launch Contacts ContactSync account_id);;
             push ← asks USE_GOOGLE_PUSH_NOTIFICATIONS;
             when (info_events acc && sync_events acc)
               (launch Events (event_sync_cls push acc) account_id);;
             update_acc account_id sync_started;;
             emit (EvSyncStarted account_id);;
             modify (fun s => set_syncing_accounts (syncing_accounts s ∪ {[account_id]}) s);;
             commit account_id;;
             log Info "Sync started" (Some account_id))
            (log Error "Error starting sync" (Some account_id))
        else log Info "sync already started" (Some account_id)
    end)).

(** Lines 199-211, once per dictionary. *)
Definition kill_recorded (k : kind) (account_id : Z) : M unit :=
  recorded ← gets (fun s => monitors_of k s !! account_id);
  match recorded with
  | Some h =>
      monitor_kill h;;
      modify (fun s => set_monitors_of k (delete account_id (monitors_of k s)) s)
  | None => mret tt
  end.

Definition stop_sync (account_id : Z) : M bool :=
  emit (EvCall OpStop account_id);;
  with_semaphore (
    log Info "Stopping monitors" (Some account_id);;
    kill_recorded Email account_id;;
    kill_recorded Contacts account_id;;
    kill_recorded Events account_id;;
    modify (fun s => set_syncing_accounts (syncing_accounts s ∖ {[account_id]}) s);;
    session_scope account_id (
      acc ← query_get account_id;
      match acc with
      | None => raise AttributeError
      | Some acc =>
          when (negb (sync_should_run acc)) (clear_heartbeat_status account_id);;
          pid ← asks process_identifier;
          update_acc account_id (fun a => fst (sync_stopped pid a));;
          emit (EvSyncStopped account_id pid);;
          when (snd (sync_stopped pid acc))
            (log Info "sync stopped" (Some account_id))
      end);;
    pid ← asks process_identifier;
    r ← unassign account_id pid;
    mret r).

(** [accounts_to_sync]: the keys of [assigned()] whose value is this
    process.  The keys are account ids, and [int] of an integer is itself. *)
Definition accounts_to_sync : M (gset Z) :=
  view ← assigned;
  pid ← asks process_identifier;
  mret (dom (filter (fun kv => kv.2 = pid) view)).

(** [cpu_usage > 90.0]. *)
Definition over_90 (cpu_usage : Q) : bool := negb (Qle_bool cpu_usage 90).

(** [all([cpu_usage > 90.0 for cpu_usage in usage_per_cpu])]. *)
Definition overloaded_cpus (usage_per_cpu : list Q) : bool :=
  forallb over_90 usage_per_cpu.

(** The truth value of [r] in [if r:]: [None] and [0] are false. *)
Definition truthy (r : option Z) : bool :=
  match r with
  | Some a => negb (Z.eqb a 0)
  | None => false
  end.

Definition only_operational (e : exn) : bool :=
  match e with
  | OperationalError => true
  | _ => false
  end.

(** Lines 91-100 of [poll]. *)
Definition acquire_phase : M unit :=
  usage_per_cpu ← asks cpu_percent;
  stealing ← asks stealing_enabled;
  when (stealing && negb (overloaded_cpus usage_per_cpu))
    (pid ← asks process_identifier;
     r ← claim_next pid;
     when (truthy r) (log Info "Claimed new account sync" r)).

(** Lines 110-116: the body of the first loop of [poll]. *)
Definition start_if_needed (account_id : Z) : M unit :=
  syncing ← gets syncing_accounts;
  when (bool_decide (account_id ∉ syncing))
    (try_except only_operational
       (start_sync account_id)
       (log Error "Database error starting account sync" None;;
        log_uncaught_errors)).

(** Lines 120-127: the body of the second loop of [poll]. *)
Definition stop_account (account_id : Z) : M unit :=
  log Info "sync service stopping sync" (Some account_id);;
  try_except only_operational
    (stop_sync account_id;; mret tt)
    (log Error "Database error stopping account sync" None;;
     log_uncaught_errors).

(** Lines 102-127 of [poll].  A Python set is iterated in an order the
    language leaves open; [elements] fixes one. *)
Definition converge_phase : M unit :=
  start_accounts ← accounts_to_sync;
  emit (EvGauge (size start_accounts));;
  for_each (elements start_accounts) start_if_needed;;
  syncing ← gets syncing_accounts;
  let stop_accounts := syncing ∖ start_accounts in
  for_each (elements stop_accounts) stop_account.

Definition poll : M unit :=
  acquire_phase;;
  converge_phase.

(** ** Observations *)

(** The events a call appended to the trace. *)
Definition events_since (s s' : State) : list event :=
  drop (length (trace s)) (trace s').

(** The calls of [start_sync] and [stop_sync] in a trace, in order. *)
Definition calls (t : list event) : list (op * Z) :=
  omap (fun e => match e with EvCall o a => Some (o, a) | _ => None end) t.

Definition is_claim (e : event) : bool :=
  match e with
  | EvClaimNext _ _ => true
  | _ => false
  end.

(** [claim_next] was called. *)
Definition claim_attempted (t : list event) : bool := existsb is_claim t.

(** The desired set of a tick: what [accounts_to_sync] returns. *)
Definition desired (env : Env) (s : State) : gset Z :=
  dom (filter (fun kv => kv.2 = process_identifier env) (assignments s)).

(** The capability of kind [k] is enabled for the account and supported by
    its provider: the three tests of lines 150, 156 and 164. *)
Definition applies (k : kind) (acc : Account) : bool :=
  match k with
  | Email => sync_email acc
  | Contacts => info_contacts acc && sync_contacts acc
  | Events => info_events acc && sync_events acc
  end.

Definition no_fault (env : Env) (k : kind) (a : Z) : bool :=
  match monitor_fault env k a with
  | None => true
  | Some _ => false
  end.

(** No monitor that [start_sync] launches for the account raises. *)
Definition launches_ok (env : Env) (acc : Account) (a : Z) : bool :=
  implb (applies Email acc) (no_fault env Email a) &&
  implb (applies Contacts acc) (no_fault env Contacts a) &&
  implb (applies Events acc) (no_fault env Events a).

(** [start_sync a] reaches line 180: the row is read and exists, the
    account is not syncing yet and no monitor raises. *)
Definition start_succeeds (env : Env) (s : State) (a : Z) : bool :=
  negb (read_fails env a) && bool_decide (a ∉ syncing_accounts s) &&
  match db s !! a with
  | Some acc => launches_ok env acc a
  | None => false
  end.

(** The class [start_sync] instantiates for each kind. *)
Definition cls_of (env : Env) (acc : Account) (k : kind) : monitor_cls :=
  match k with
  | Email => SyncMonitorFor (provider acc)
  | Contacts => ContactSync
  | Events => event_sync_cls (USE_GOOGLE_PUSH_NOTIFICATIONS env) acc
  end.

Definition running_monitor (env : Env) (acc : Account) (a : Z) (k : kind) : Monitor :=
  {| m_kind := k; m_cls := cls_of env acc k; m_account := a; m_status := Running |}.

Definition monitor_if (env : Env) (acc : Account) (a : Z) (k : kind) : list Monitor :=
  if applies k acc then [running_monitor env acc a k] else [].

(** One running monitor per capability that applies, in the order
    [start_sync] launches them. *)
Definition started_monitors (env : Env) (acc : Account) (a : Z) : list Monitor :=
  monitor_if env acc a Email ++ monitor_if env acc a Contacts ++
  monitor_if env acc a Events.

(** One handle is taken per capability that applies. *)
Definition monitor_if_any (acc : Account) (k : kind) : list kind :=
  if applies k acc then [k] else [].

(** The handle the monitor of kind [k] gets when [start_sync] launches the
    monitors of [acc] in state [s]. *)
Definition handle_of (s : State) (acc : Account) (k : kind) : handle :=
  (match k with
   | Email => length (monitors s)
   | Contacts => length (monitors s) + length (monitor_if_any acc Email)
   | Events =>
       length (monitors s) + length (monitor_if_any acc Email) +
       length (monitor_if_any acc Contacts)
   end)%nat.

(** The handles recorded for an account, in the order [stop_sync] visits
    the three dictionaries. *)
Definition recorded_handles (s : State) (a : Z) : list handle :=
  option_list (email_sync_monitors s !! a) ++
  option_list (contact_sync_monitors s !! a) ++
  option_list (event_sync_monitors s !! a).

(** The monitors after [kill()] on each of the handles [hs]. *)
Definition killed (hs : list handle) (ms : list Monitor) : list Monitor :=
  foldl (fun l h => alter (with_status Killed) h l) ms hs.

(** What [stop_sync] does from line 216 on when the row [acc] is there. *)
Definition release_events (env : Env) (acc : Account) (a : Z) : list event :=
  (if sync_should_run acc then [] else [EvClearHeartbeat a]) ++
  [EvSyncStopped a (process_identifier env);
   EvLog Info "sync stopped" (Some a);
   EvCommit;
   EvUnassign a (process_identifier env)].

(** What [stop_sync] does inside the scope of line 216 when the row [acc]
    is there, up to the commit that leaving the scope makes. *)
Definition scope_events (env : Env) (acc : Account) (a : Z) : list event :=
  (if sync_should_run acc then [] else [EvClearHeartbeat a]) ++
  [EvSyncStopped a (process_identifier env);
   EvLog Info "sync stopped" (Some a)].

(** The events of one call of [stop_sync]: when the commit raises, the
    call ends there. *)
Definition stop_events (env : Env) (s : State) (a : Z) : list event :=
  [EvCall OpStop a; EvLog Info "Stopping monitors" (Some a)] ++
  (EvKill <$> recorded_handles s a) ++
  (if read_fails env a then []
   else match db s !! a with
        | Some acc =>
            if commit_fails env a then scope_events env acc a
            else release_events env acc a
        | None => []
        end).

(** The result of [stop_sync]. *)
Definition stop_outcome (env : Env) (s : State) (a : Z) : result bool :=
  if read_fails env a then Raise OperationalError
  else match db s !! a with
       | Some _ =>
           if commit_fails env a then Raise OperationalError
           else Ok (bool_decide (assignments s !! a = Some (process_identifier env)))
       | None => Raise AttributeError
       end.

(** The events of launching the monitor of kind [k], when it applies. *)
Definition launch_events (env : Env) (s : State) (acc : Account) (a : Z) (k : kind) : list event :=
  if applies k acc then
    [EvConstruct k (cls_of env acc k) (handle_of s acc k) a;
     EvMonitorStart (handle_of s acc k)]
  else [].

(** The events of a call of [start_sync] that reaches line 182. *)
Definition start_events (env : Env) (s : State) (acc : Account) (a : Z) : list event :=
  [EvCall OpStart a; EvLog Info "starting sync" (Some a)] ++
  launch_events env s acc a Email ++
  launch_events env s acc a Contacts ++
  launch_events env s acc a Events ++
  [EvSyncStarted a; EvCommit; EvLog Info "Sync started" (Some a); EvCommit].

(** The events of a call of [start_sync] for an account already syncing. *)
Definition already_started_events (a : Z) : list event :=
  [EvCall OpStart a;
   EvLog Info "starting sync" (Some a);
   EvLog Info "sync already started" (Some a);
   EvCommit].

(** What [start_sync] may emit after its call marker. *)
Definition start_event (e : event) : bool :=
  match e with
  | EvLog _ _ (Some _) | EvConstruct _ _ _ _ | EvMonitorStart _
  | EvSyncStarted _ | EvCommit => true
  | _ => false
  end.

(** The error logged by the handler of line 184. *)
Definition is_start_error (a : Z) (e : event) : bool :=
  match e with
  | EvLog Error msg (Some b) => String.eqb msg "Error starting sync" && Z.eqb b a
  | _ => false
  end.

Definition is_sync_started (e : event) : bool :=
  match e with
  | EvSyncStarted _ => true
  | _ => false
  end.

Definition is_kill (e : event) : bool :=
  match e with
  | EvKill _ => true
  | _ => false
  end.

(** [stop_sync a] returns or raises [OperationalError], which [poll]
    catches: the read of the row fails or the row is there. *)
Definition stop_caught (env : Env) (s : State) (a : Z) : bool :=
  read_fails env a || bool_decide (is_Some (db s !! a)).

(** The accounts the second loop of [poll] reaches: all of them, or those
    up to the first whose [stop_sync] raises past [poll]. *)
Fixpoint reached (ok : Z -> bool) (l : list Z) : list Z :=
  match l with
  | [] => []
  | a :: l' => if ok a then a :: reached ok l' else [a]
  end.

(** The error lines of the two handlers of [poll] (lines 114 and 125):
    they are the error lines that carry no account id. *)
Definition is_db_error (e : event) : bool :=
  match e with
  | EvLog Error _ None => true
  | _ => false
  end.

Definition db_errors (t : list event) : nat :=
  length (List.filter is_db_error t).

(** The calls, among [cs], for an account whose shard is down: those that
    raise [OperationalError], at the read or at a commit (a [stop_sync]
    that finds no row raises before it commits). *)
Definition down_calls (env : Env) (cs : list (op * Z)) : nat :=
  length (List.filter (fun c => db_down env (snd c)) cs).

(** Each call that raises [OperationalError] is matched by an error line
    of [poll], and there is no other such line. *)
Definition errors_accounted (env : Env) (t : list event) : Prop :=
  db_errors t = down_calls env (calls t).

(** [toStart] and [toStop] of a tick: the desired set is read after the
    acquire phase. *)
Definition to_start (env : Env) (s : State) : gset Z :=
  desired env (final (acquire_phase env s)) ∖ syncing_accounts s.

Definition to_stop (env : Env) (s : State) : gset Z :=
  syncing_accounts s ∖ desired env (final (acquire_phase env s)).

(** No [stop_sync] of the tick raises past [poll]. *)
Definition tick_completes (env : Env) (s : State) : bool :=
  forallb (stop_caught env s) (elements (to_stop env s)).

Definition is_unassign (e : event) : bool :=
  match e with
  | EvUnassign _ _ => true
  | _ => false
  end.

(** The fields of [self] are the same in both states: only the
    collaborators moved. *)
Definition same_self (s s' : State) : Prop :=
  syncing_accounts s' = syncing_accounts s ∧
  ∀ k, monitors_of k s' = monitors_of k s.

(** The states a service goes through, from [__init__] on, by calls of
    [start_sync] and [stop_sync] in any environment, the collaborators
    changing state between the calls.  The second component records, for
    each account put in [syncing_accounts], the row [start_sync] read. *)
Inductive reachable : State -> gmap Z Account -> Prop :=
  | reach_init s :
      reachable (init s) ∅
  | reach_start env s g a :
      reachable s g ->
      reachable (final (start_sync a env s))
        (if start_succeeds env s a
         then from_option (fun acc => <[a := acc]> g) g (db s !! a)
         else g)
  | reach_stop env s g a :
      reachable s g ->
      reachable (final (stop_sync a env s)) (delete a g)
  | reach_world s s' g :
      reachable s g -> same_self s s' -> reachable s' g.

(** ** Sample inputs *)

Definition sample_account (email contacts events should_run : bool) : Account :=
  {| email_address := "user@example.com"; provider := "gmail";
     verbose_provider := "gmail"; namespace_id := 1;
     sync_email := email; sync_contacts := contacts; sync_events := events;
     info_contacts := true; info_events := true;
     sync_host := None; sync_should_run := should_run;
     sync_marker := None |}.

Definition sample_env (usage : list Q) (fault : kind -> Z -> option stage) : Env :=
  {| host := "hostA"; cpu_id := 0; process_identifier := "hostA:0";
     stealing_enabled := true; USE_GOOGLE_PUSH_NOTIFICATIONS := false;
     cpu_percent := usage; db_down := fun _ => false;
     db_down_at := fun _ => AtRead; claim_visible := fun _ => true;
     monitor_fault := fault |}.

Definition no_faults : kind -> Z -> option stage := fun _ _ => None.

(** A contacts monitor whose [start()] raises. *)
Definition contacts_fault : kind -> Z -> option stage :=
  fun k _ => match k with Contacts => Some AtStart | _ => None end.

(** A service just constructed, with the given rows and assignment view. *)
Definition fresh_state (rows : gmap Z Account) (view : gmap Z string) : State :=
  {| syncing_accounts := ∅; email_sync_monitors := ∅;
     contact_sync_monitors := ∅; event_sync_monitors := ∅;
     db := rows; session := ∅; assignments := view; unclaimed := [];
     heartbeats := dom rows; monitors := []; trace := [] |}.

Definition mail_only : Account := sample_account true false false false.
Definition mail_and_contacts : Account := sample_account true true false false.

Definition four_rows : gmap Z Account :=
  {[ 1 := mail_only; 2 := mail_only; 3 := mail_only; 4 := mail_only ]}.

Definition idle_env : Env := sample_env [95 # 1; 95 # 1; 10 # 1] no_faults.

(** The spec's diff example: after a tick with accounts 1, 2 and 3
    assigned, the view moves to accounts 2, 3 and 4. *)
Definition running_123 : State :=
  final (poll idle_env
    (fresh_state four_rows
       {[ 1 := "hostA:0"; 2 := "hostA:0"; 3 := "hostA:0" ]})).

Definition view_234 : State :=
  set_assignments {[ 2 := "hostA:0"; 3 := "hostA:0"; 4 := "hostA:0" ]} running_123.

(** Accounts 1 and 2 are syncing, nothing is assigned any more, and the
    rows of both accounts are gone. *)
Definition rows_gone : State :=
  set_db ∅ (set_assignments ∅
    (final (poll idle_env
       (fresh_state four_rows {[ 1 := "hostA:0"; 2 := "hostA:0" ]})))).

(** Account 7 is not syncing here, its row exists and it is assigned to
    this process. *)
Definition not_running_7 : State :=
  fresh_state {[ 7 := mail_only ]} {[ 7 := "hostA:0" ]}.

(** Account 10 with mail and contacts enabled, assigned to this process. *)
Definition one_account : State :=
  fresh_state {[ 10 := mail_and_contacts ]} {[ 10 := "hostA:0" ]}.

(** The shard of account 2 does not answer the read of the row. *)
Definition shard_2_down : Env :=
  {| host := "hostA"; cpu_id := 0; process_identifier := "hostA:0";
     stealing_enabled := true; USE_GOOGLE_PUSH_NOTIFICATIONS := false;
     cpu_percent := [10 # 1]; db_down := fun a => Z.eqb a 2;
     db_down_at := fun _ => AtRead; claim_visible := fun _ => true;
     monitor_fault := no_faults |}.

(** Accounts 1, 2 and 3 are assigned and none is syncing yet. *)
Definition assigned_123 : State :=
  fresh_state four_rows {[ 1 := "hostA:0"; 2 := "hostA:0"; 3 := "hostA:0" ]}.


(** The shard of account 2 gives the row and fails at every commit. *)
Definition commit_2_down : Env :=
  {| host := "hostA"; cpu_id := 0; process_identifier := "hostA:0";
     stealing_enabled := true; USE_GOOGLE_PUSH_NOTIFICATIONS := false;
     cpu_percent := [10 # 1]; db_down := fun a => Z.eqb a 2;
     db_down_at := fun _ => AtCommit; claim_visible := fun _ => true;
     monitor_fault := no_faults |}.

(** The assignment view lags behind the claims. *)
Definition lagging_env : Env :=
  {| host := "hostA"; cpu_id := 0; process_identifier := "hostA:0";
     stealing_enabled := true; USE_GOOGLE_PUSH_NOTIFICATIONS := false;
     cpu_percent := [10 # 1]; db_down := fun _ => false;
     db_down_at := fun _ => AtRead; claim_visible := fun _ => false;
     monitor_fault := no_faults |}.

(** Account 10 waits in the queue; nothing is assigned yet. *)
Definition queued_10 : State :=
  set_unclaimed [10] (fresh_state {[ 10 := mail_only ]} ∅).

(** ** __init__ and _run_impl *)

(** A backend module of [module_registry]: its [PROVIDER] and, when the
    module has the attribute, the class its [SYNC_MONITOR_CLS] names. *)
Record Backend := {
  PROVIDER : string;
  SYNC_MONITOR_CLS : option string;
}.

Inductive key_error := KeyError (key : string).

(** Lines 44-46 of [__init__]: the dictionary built from
    [module_registry.values()]; a module without [SYNC_MONITOR_CLS] is
    skipped and a later module takes the place of an earlier one with the
    same [PROVIDER]. *)
Definition registered (module_registry : list Backend) : gmap string string :=
  foldl (fun d bmod =>
           match SYNC_MONITOR_CLS bmod with
           | Some cls => <[PROVIDER bmod := cls]> d
           | None => d
           end) ∅ module_registry.

(** Lines 48-50 of [__init__]: each provider name that has no class yet
    gets the class of ["generic"]; the subscript raises [KeyError] when
    there is none. *)
Fixpoint fill_generic (providers : list string) (d : gmap string string)
  : gmap string string + key_error :=
  match providers with
  | [] => inl d
  | p_name :: rest =>
      match d !! p_name with
      | Some _ => fill_generic rest d
      | None =>
          match d !! "generic" with
          | Some cls => fill_generic rest (<[p_name := cls]> d)
          | None => inr (KeyError "generic")
          end
      end
  end.

(** [self.monitor_cls_for] as [__init__] leaves it. *)
Definition monitor_cls_for (module_registry : list Backend) (providers : list string)
  : gmap string string + key_error :=
  fill_generic providers (registered module_registry).

(** Lines 82-84, [_run_impl]: the first [ticks] turns of [while True].
    [gevent.sleep] changes nothing of the state kept here, and an exception
    of [poll] leaves the loop. *)
Fixpoint run_impl (ticks : nat) : M unit :=
  match ticks with
  | O => mret tt
  | S n => poll;; run_impl n
  end.

(** Every handle recorded for an account is a monitor constructed for that
    account, of the kind of the dictionary it is in. *)
Definition handles_owned (s : State) : Prop :=
  ∀ k a h, monitors_of k s !! a = Some h →
    ∃ m, monitors s !! h = Some m ∧ m_kind m = k ∧ m_account m = a.

(** Kind and account of the monitors are the same in both states. *)
Definition same_monitors (s s' : State) : Prop :=
  ∀ h, (fun m => (m_kind m, m_account m)) <$> monitors s' !! h =
       (fun m => (m_kind m, m_account m)) <$> monitors s !! h.

(** The states of a service from [__init__] on, as [reachable], the
    monitors keeping their kind and account when the collaborators move. *)
Inductive run_from_init : State -> Prop :=
  | run_init s :
      run_from_init (init s)
  | run_start env s a :
      run_from_init s -> run_from_init (final (start_sync a env s))
  | run_stop env s a :
      run_from_init s -> run_from_init (final (stop_sync a env s))
  | run_world s s' :
      run_from_init s -> same_self s s' -> same_monitors s s' ->
      run_from_init s'.

(** A registry with a gmail backend, a generic backend and a module that
    names no monitor class. *)
Definition sample_registry : list Backend :=
  [ {| PROVIDER := "gmail"; SYNC_MONITOR_CLS := Some "GmailSyncMonitor" |};
    {| PROVIDER := "generic"; SYNC_MONITOR_CLS := Some "ImapSyncMonitor" |};
    {| PROVIDER := "eas"; SYNC_MONITOR_CLS := None |} ].

Definition sample_providers : list string := ["gmail"; "yahoo"; "eas"].

(** The same registry without its generic backend. *)
Definition no_generic_registry : list Backend :=
  [ {| PROVIDER := "gmail"; SYNC_MONITOR_CLS := Some "GmailSyncMonitor" |} ].

(** What a tick emits when it has nothing to do: a claim that found the
    queue empty and the gauge. *)
Definition idle_event (e : event) : bool :=
  match e with
  | EvClaimNext _ None | EvGauge _ => true
  | _ => false
  end.

(** * Properties *)

#[local] Set Warnings "-clear-no-such-hyp".

(** ** Symbolic execution

    The three operations are straight-line code with tests: a property of
    a run is proved by following the run through the cases of its tests,
    innermost test first. *)

Ltac unfold_M :=
  unfold start_sync, stop_sync, kill_recorded, launch, with_semaphore, session_scope, query_get,
    update_acc, commit, clear_heartbeat_status, claim_next, unassign, construct, monitor_start, monitor_kill,
    log, log_uncaught_errors, emit, try_except, when,
    mbind, mret, M_bind, M_ret, bind, ret, gets, asks, modify, raise, final, outcome,
    read_fails, commit_fails in *.

Ltac unfold_obs :=
  unfold start_succeeds, launches_ok, no_fault, started_monitors, monitor_if,
    start_events, launch_events, handle_of, monitor_if_any, applies, cls_of, running_monitor,
    stop_outcome, stop_events, release_events, scope_events, recorded_handles, killed,
    already_started_events, bool_decide in *.

Ltac inner_case :=
  match goal with
  | |- context [match ?x with _ => _ end] =>
      lazymatch x with
      | context [match _ with _ => _ end] => fail
      | _ => destruct x eqn:?
      end
  end.

Ltac flags acc :=
  destruct (sync_email acc) eqn:?,
    (info_contacts acc && sync_contacts acc) eqn:?,
    (info_events acc && sync_events acc) eqn:?; simpl.

Ltac prune := solve [let H := fresh in intro H; discriminate H].

(* Symbolic execution of [m]: the goal is stated on the result [r] of the
   run, and the cases of the run are those of the tests the code makes. *)
Ltac exec m :=
  let r := fresh "r" in
  let Hr := fresh "Hr" in
  remember m as r eqn:Hr; revert Hr;
  unfold_obs; unfold_M; simpl;
  repeat (inner_case; simpl; try prune);
  intros ->; simpl.

Lemma read_fails_up env a : db_down env a = false → read_fails env a = false.
Proof. unfold read_fails. by intros ->. Qed.

Lemma commit_fails_up env a : db_down env a = false → commit_fails env a = false.
Proof. unfold commit_fails. by intros ->. Qed.

(* The shard answers: neither the read nor a commit fails. *)
Ltac shard_up Hd :=
  rewrite ?(read_fails_up _ _ Hd), ?(commit_fails_up _ _ Hd), ?Hd in *.

Lemma db_down_split env a :
  db_down env a = read_fails env a || commit_fails env a.
Proof.
  unfold read_fails, commit_fails.
  by destruct (db_down env a), (db_down_at env a).
Qed.

Lemma alter_snoc {A} (f : A → A) (l : list A) (x : A) :
  alter f (length l) (l ++ [x]) = l ++ [f x].
Proof.
  rewrite alter_app_r_alt by lia. by rewrite Nat.sub_diag.
Qed.

Lemma events_since_app s s' evs :
  trace s' = trace s ++ evs → events_since s s' = evs.
Proof. unfold events_since. intros ->. by rewrite drop_app_length. Qed.

Ltac tidy_trace := rewrite <- ?app_assoc; simpl.
Ltac tidy_monitors := rewrite ?alter_snoc, <- ?app_assoc, ?app_nil_r; simpl.
Ltac tidy_db :=
  rewrite ?alter_insert_eq, <- ?insert_union_l, ?(left_id_L ∅ (∪)), ?insert_insert_eq.
Ltac tidy_handles :=
  rewrite ?alter_snoc, ?length_app; simpl; rewrite ?Nat.add_0_r, <- ?Nat.add_assoc; simpl.

Lemma start_sync_frame env s a :
  let s' := final (start_sync a env s) in
  (∃ evs, trace s' = trace s ++ EvCall OpStart a :: evs ∧ forallb start_event evs = true) ∧
  (∃ new, monitors s' = monitors s ++ new) ∧
  (∀ k, monitors_of k s' = monitors_of k s ∨
        ∃ h, monitors_of k s' = <[a := h]> (monitors_of k s)) ∧
  (db s' = db s ∨ ∃ acc acc', db s !! a = Some acc ∧ db s' = <[a := acc']> (db s)) ∧
  assignments s' = assignments s ∧ unclaimed s' = unclaimed s ∧
  heartbeats s' = heartbeats s ∧ session s' = session s.
Proof.
  cbv zeta. exec (start_sync a env s).
  all: split; [tidy_trace; eexists; split; [reflexivity|done]|].
  all: split; [tidy_monitors; first [exists []; by rewrite app_nil_r | eexists; reflexivity]|].
  all: split; [intros []; simpl; eauto|].
  all: split; [tidy_db|done].
  all: try (by left).
  all: try (right; eexists _, _; split; [reflexivity|]; reflexivity).
  all: try (left; symmetry; by apply insert_id).
Qed.

Lemma start_sync_outcome env s a :
  outcome (start_sync a env s) = if db_down env a then Raise OperationalError else Ok tt.
Proof. exec (start_sync a env s); done. Qed.

Lemma start_sync_syncing env s a :
  syncing_accounts (final (start_sync a env s)) =
  if start_succeeds env s a then syncing_accounts s ∪ {[a]} else syncing_accounts s.
Proof. exec (start_sync a env s); done. Qed.

Lemma start_sync_success env s a acc :
  db_down env a = false → a ∉ syncing_accounts s → db s !! a = Some acc →
  launches_ok env acc a = true →
  let s' := final (start_sync a env s) in
  monitors s' = monitors s ++ started_monitors env acc a ∧
  (∀ k, monitors_of k s' =
        if applies k acc then <[a := handle_of s acc k]> (monitors_of k s)
        else monitors_of k s) ∧
  db s' = <[a := sync_started (with_sync_host (Some (process_identifier env)) acc)]> (db s) ∧
  trace s' = trace s ++ start_events env s acc a.
Proof.
  intros Hd Hn Hr. cbv zeta.
  remember (start_sync a env s) as r eqn:Hrun. revert Hrun.
  unfold_obs; unfold_M; simpl. rewrite Hd; simpl. rewrite Hr; simpl.
  destruct (decide (a ∉ syncing_accounts s)); [simpl|done].
  flags acc; repeat (inner_case; simpl).
  all: intros -> ?; try discriminate; simpl.
  all: split; [tidy_monitors; done|].
  all: split; [intros []; simpl; tidy_handles; done|].
  all: split; [tidy_db; try done|].
  all: tidy_handles; tidy_trace; try done.
Qed.

Lemma state_eq (s1 s2 : State) :
  syncing_accounts s1 = syncing_accounts s2 →
  email_sync_monitors s1 = email_sync_monitors s2 →
  contact_sync_monitors s1 = contact_sync_monitors s2 →
  event_sync_monitors s1 = event_sync_monitors s2 →
  db s1 = db s2 → session s1 = session s2 → assignments s1 = assignments s2 →
  unclaimed s1 = unclaimed s2 → heartbeats s1 = heartbeats s2 →
  monitors s1 = monitors s2 → trace s1 = trace s2 → s1 = s2.
Proof. destruct s1, s2; simpl; intros; congruence. Qed.


Lemma start_sync_failure env s a acc :
  db_down env a = false → a ∉ syncing_accounts s → db s !! a = Some acc →
  launches_ok env acc a = false →
  (∃ evs, trace (final (start_sync a env s)) = trace s ++ evs ∧
          existsb (is_start_error a) evs = true ∧
          existsb is_sync_started evs = false ∧
          existsb is_kill evs = false) ∧
  syncing_accounts (final (start_sync a env s)) = syncing_accounts s ∧
  db (final (start_sync a env s)) =
    <[a := with_sync_host (Some (process_identifier env)) acc]> (db s).
Proof.
  intros Hd Hn Hr.
  remember (start_sync a env s) as r eqn:Hrun. revert Hrun.
  unfold_obs; unfold_M; simpl. rewrite Hd; simpl. rewrite Hr; simpl.
  destruct (decide (a ∉ syncing_accounts s)); [simpl|done].
  flags acc; repeat (inner_case; simpl).
  all: intros -> ?; try discriminate; simpl.
  all: split; [|split; [done|by tidy_db]].
  all: tidy_trace; eexists; split; [reflexivity|].
  all: simpl; rewrite Z.eqb_refl; done.
Qed.

(** The email monitor outlives a start that a later monitor makes fail. *)
Lemma start_sync_partial env s a acc :
  db_down env a = false → a ∉ syncing_accounts s → db s !! a = Some acc →
  sync_email acc = true → monitor_fault env Email a = None →
  launches_ok env acc a = false →
  let s' := final (start_sync a env s) in
  email_sync_monitors s' !! a = Some (length (monitors s)) ∧
  monitors s' !! length (monitors s) = Some (running_monitor env acc a Email).
Proof.
  intros Hd Hn Hr He Hf. cbv zeta.
  remember (start_sync a env s) as r eqn:Hrun. revert Hrun.
  unfold_obs; unfold_M; simpl. rewrite Hd; simpl. rewrite Hr; simpl.
  destruct (decide (a ∉ syncing_accounts s)); [simpl|done].
  rewrite He, Hf; simpl.
  destruct (info_contacts acc && sync_contacts acc) eqn:?,
    (info_events acc && sync_events acc) eqn:?; simpl.
  all: repeat (inner_case; simpl).
  all: intros -> ?; try discriminate; simpl.
  all: split; [by rewrite lookup_insert_eq|].
  all: tidy_monitors; by rewrite list_lookup_middle.
Qed.

Lemma stop_sync_spec env s a :
  let r := stop_sync a env s in
  outcome r = stop_outcome env s a ∧
  syncing_accounts (final r) = syncing_accounts s ∖ {[a]} ∧
  (∀ k, monitors_of k (final r) = delete a (monitors_of k s)) ∧
  trace (final r) = trace s ++ stop_events env s a ∧
  monitors (final r) = killed (recorded_handles s a) (monitors s) ∧
  db (final r) =
    (if db_down env a then db s
     else match db s !! a with
          | Some acc => <[a := fst (sync_stopped (process_identifier env) acc)]> (db s)
          | None => db s
          end) ∧
  heartbeats (final r) =
    (if read_fails env a then heartbeats s
     else match db s !! a with
          | Some acc => if sync_should_run acc then heartbeats s
                        else heartbeats s ∖ {[a]}
          | None => heartbeats s
          end) ∧
  assignments (final r) =
    (match stop_outcome env s a with
     | Ok true => delete a (assignments s)
     | _ => assignments s
     end) ∧
  session (final r) = session s ∧ unclaimed (final r) = unclaimed s.
Proof.
  cbv zeta. remember (stop_sync a env s) as r eqn:Hrun. revert Hrun.
  unfold_obs; unfold_M; simpl; repeat (inner_case; simpl).
  all: intros ->; simpl.
  all: split; [done|].
  all: split; [done|].
  all: split; [intros []; simpl; rewrite ?delete_id by done; done|].
  all: split; [by tidy_trace|].
  all: split; [done|].
  all: split; [tidy_db; congruence|].
  all: done.
Qed.

Ltac unfold_poll :=
  unfold poll, converge_phase, acquire_phase, accounts_to_sync, assigned, start_if_needed,
    stop_account, claim_next, try_except, when, log, log_uncaught_errors, emit,
    mbind, mret, M_bind, M_ret, bind, ret, gets, asks, modify, raise, final, outcome in *.

Lemma calls_app t1 t2 : calls (t1 ++ t2) = calls t1 ++ calls t2.
Proof. apply omap_app. Qed.

Lemma db_errors_app t1 t2 : db_errors (t1 ++ t2) = (db_errors t1 + db_errors t2)%nat.
Proof. unfold db_errors. by rewrite List.filter_app, length_app. Qed.

Lemma errors_accounted_app env t1 t2 :
  errors_accounted env t1 → errors_accounted env t2 →
  errors_accounted env (t1 ++ t2).
Proof.
  unfold errors_accounted, down_calls. intros H1 H2.
  by rewrite db_errors_app, calls_app, List.filter_app, length_app, H1, H2.
Qed.

Lemma db_errors_start_events evs : forallb start_event evs = true → db_errors evs = 0%nat.
Proof.
  induction evs as [|e evs IH]; simpl; [done|].
  intros [He Hevs]%andb_true_iff. unfold db_errors in *. simpl.
  specialize (IH Hevs). by destruct e as [| [] ? [] | | | | | | | | | | | ].
Qed.

Lemma db_errors_stop_events env s a : db_errors (stop_events env s a) = 0%nat.
Proof.
  unfold stop_events, release_events, scope_events. rewrite !db_errors_app. simpl.
  assert (db_errors (EvKill <$> recorded_handles s a) = 0%nat) as ->.
  { induction (recorded_handles s a); simpl; [done|]. by unfold db_errors in *. }
  destruct (read_fails env a); [done|].
  destruct (db s !! a); [|done].
  destruct (commit_fails env a); rewrite db_errors_app; by destruct (sync_should_run _).
Qed.

Lemma calls_start_events evs : forallb start_event evs = true → calls evs = [].
Proof.
  induction evs as [|e evs IH]; simpl; [done|].
  intros [He Hevs]%andb_true_iff. unfold calls in *. simpl.
  rewrite (IH Hevs). by destruct e.
Qed.

Lemma calls_stop_events env s a : calls (stop_events env s a) = [(OpStop, a)].
Proof.
  unfold stop_events, release_events, scope_events. rewrite !calls_app. simpl.
  assert (calls ((EvKill <$> recorded_handles s a)) = []) as ->.
  { induction (recorded_handles s a); simpl; [done|]. by unfold calls in *. }
  destruct (read_fails env a); [done|].
  destruct (db s !! a); [|done].
  destruct (commit_fails env a); rewrite calls_app; by destruct (sync_should_run _).
Qed.

Lemma start_if_needed_spec env s a :
  let r := start_if_needed a env s in
  outcome r = Ok tt ∧
  syncing_accounts (final r) =
    (if start_succeeds env s a then syncing_accounts s ∪ {[a]} else syncing_accounts s) ∧
  (∃ evs, trace (final r) = trace s ++ evs ∧
          calls evs = (if bool_decide (a ∉ syncing_accounts s) then [(OpStart, a)] else []) ∧
          errors_accounted env evs) ∧
  (∀ x, x ≠ a → db (final r) !! x = db s !! x) ∧
  (∀ x, is_Some (db (final r) !! x) ↔ is_Some (db s !! x)).
Proof.
  cbv zeta. unfold start_if_needed, try_except, when, log, log_uncaught_errors, emit,
    mbind, mret, M_bind, M_ret, bind, ret, gets, modify. simpl.
  case_bool_decide as Hin; simpl.
  2:{ unfold start_succeeds. rewrite (bool_decide_eq_false_2 (a ∉ _)) by (by intros ?). rewrite andb_false_r. simpl.
      repeat split; try done. exists []. by rewrite app_nil_r. }
  pose proof (start_sync_outcome env s a) as Ho.
  unfold errors_accounted, down_calls.
  pose proof (start_sync_syncing env s a) as Hs.
  destruct (start_sync_frame env s a) as ((evs & Ht & Hevs) & _ & _ & Hdb & _).
  unfold outcome, final in *.
  destruct (start_sync a env s) as [r s']. simpl in *.
  assert (Hdb1 : ∀ x, x ≠ a → db s' !! x = db s !! x).
  { intros x Hx. destruct Hdb as [->|(acc & acc' & _ & ->)]; [done|].
    by rewrite lookup_insert_ne. }
  assert (Hdb2 : ∀ x, is_Some (db s' !! x) ↔ is_Some (db s !! x)).
  { intros x. destruct Hdb as [->|(acc & acc' & Hacc & ->)]; [done|].
    destruct (decide (x = a)) as [->|Hx].
    - rewrite lookup_insert_eq, Hacc. split; eauto.
    - by rewrite lookup_insert_ne. }
  destruct (db_down env a) eqn:Hdown; subst r; simpl.
  - repeat split; try done; try apply Hdb2.
    exists ([EvCall OpStart a] ++ evs ++
            [EvLog Error "Database error starting account sync" None; EvLogUncaught]).
    rewrite Ht, <- !app_assoc. split; [reflexivity|].
    rewrite !calls_app, !db_errors_app, (calls_start_events _ Hevs),
      (db_errors_start_events _ Hevs). simpl. by rewrite Hdown.
  - repeat split; try done; try apply Hdb2.
    exists ([EvCall OpStart a] ++ evs). split; [exact Ht|].
    rewrite calls_app, db_errors_app, (calls_start_events _ Hevs),
      (db_errors_start_events _ Hevs). simpl. by rewrite Hdown.
Qed.

Lemma start_succeeds_ext env s s' a :
  db s' !! a = db s !! a →
  (a ∈ syncing_accounts s' ↔ a ∈ syncing_accounts s) →
  start_succeeds env s' a = start_succeeds env s a.
Proof.
  intros Hdb Hin. unfold start_succeeds. rewrite Hdb. do 2 f_equal.
  apply bool_decide_ext. by rewrite Hin.
Qed.

Lemma for_each_cons {A} (f : A → M unit) x l env s :
  for_each (x :: l) f env s =
  match f x env s with
  | (Ok _, s') => for_each l f env s'
  | (Raise e, s') => (Raise e, s')
  end.
Proof. done. Qed.

Lemma filter_ext_in (P Q : Z → Prop) `{!∀ x, Decision (P x)} `{!∀ x, Decision (Q x)} (l : list Z) :
  (∀ x, x ∈ l → P x ↔ Q x) → filter P l = filter Q l.
Proof.
  induction l as [|a l IH]; [done|]. intros Hl.
  rewrite !filter_cons, IH by (intros x Hx; apply Hl; by right).
  destruct (decide (P a)) as [Hp|Hp], (decide (Q a)) as [Hq|Hq]; try done.
  - destruct Hq. apply Hl; [left|done].
  - destruct Hp. apply Hl; [left|done].
Qed.

Lemma start_loop_spec env l :
  NoDup l → ∀ s,
  let r := for_each l start_if_needed env s in
  outcome r = Ok tt ∧
  (∀ x, x ∈ syncing_accounts (final r) ↔
        x ∈ syncing_accounts s ∨ (x ∈ l ∧ start_succeeds env s x = true)) ∧
  (∃ evs, trace (final r) = trace s ++ evs ∧
          calls evs = (fun x => (OpStart, x)) <$> filter (fun x => x ∉ syncing_accounts s) l ∧
          errors_accounted env evs) ∧
  (∀ x, x ∉ l → db (final r) !! x = db s !! x) ∧
  (∀ x, is_Some (db (final r) !! x) ↔ is_Some (db s !! x)).
Proof.
  induction 1 as [|a l Ha Hl IH]; intros s; cbv zeta.
  { simpl. repeat split; try done; try set_solver.
    exists []. by rewrite app_nil_r. }
  rewrite for_each_cons.
  destruct (start_if_needed_spec env s a) as (Ho & Hs & (evs & Ht & Hc & Hacc) & Hdb1 & Hdb2).
  unfold outcome, final in Ho, Hs, Ht, Hdb1, Hdb2.
  destruct (start_if_needed a env s) as [r s1]. simpl in *. subst r.
  destruct (IH s1) as (Ho' & Hs' & (evs' & Ht' & Hc' & Hacc') & Hdb1' & Hdb2').
  assert (Hin : ∀ x, x ≠ a → x ∈ syncing_accounts s1 ↔ x ∈ syncing_accounts s).
  { intros x Hx. rewrite Hs. destruct (start_succeeds env s a); set_solver. }
  assert (Hext : ∀ x, x ∈ l → start_succeeds env s1 x = start_succeeds env s x).
  { intros x Hx. assert (x ≠ a) by (by intros ->).
    apply start_succeeds_ext; [by apply Hdb1 | by apply Hin]. }
  split; [done|]. split; [|split; [|split]].
  - intros x. rewrite Hs'. rewrite elem_of_cons. split.
    + intros [Hx|[Hx Hok]].
      * rewrite Hs in Hx. destruct (start_succeeds env s a) eqn:Hsa; [|by left].
        apply elem_of_union in Hx as [Hx|Hx]; [by left|].
        apply elem_of_singleton in Hx as ->. right. by split; [left|].
      * right. rewrite <- (Hext x Hx). by split; [right|].
    + intros [Hx|[[->|Hx] Hok]].
      * left. rewrite Hs. destruct (start_succeeds env s a); set_solver.
      * left. rewrite Hs, Hok. set_solver.
      * right. by rewrite (Hext x Hx).
  - exists (evs ++ evs'). rewrite Ht', Ht, <- app_assoc. split; [done|].
    split; [|by apply errors_accounted_app].
    rewrite calls_app, Hc, Hc'. rewrite filter_cons.
    assert (filter (fun x => x ∉ syncing_accounts s1) l =
            filter (fun x => x ∉ syncing_accounts s) l) as ->.
    { apply filter_ext_in. intros x Hx.
      assert (x ≠ a) by (by intros ->). by rewrite (Hin x). }
    case_bool_decide; by case_decide.
  - intros x Hx. apply not_elem_of_cons in Hx as [? ?].
    rewrite Hdb1' by done. by apply Hdb1.
  - intros x. by rewrite Hdb2', Hdb2.
Qed.

Lemma stop_account_spec env s a :
  let r := stop_account a env s in
  outcome r = (if stop_caught env s a then Ok tt else Raise AttributeError) ∧
  syncing_accounts (final r) = syncing_accounts s ∖ {[a]} ∧
  (∃ evs, trace (final r) = trace s ++ evs ∧ calls evs = [(OpStop, a)] ∧
          (stop_caught env s a = true → errors_accounted env evs)) ∧
  (∀ x, is_Some (db (final r) !! x) ↔ is_Some (db s !! x)).
Proof.
  cbv zeta. unfold stop_account, stop_caught.
  pose proof (stop_sync_spec env
    (set_trace (trace s ++ [EvLog Info "sync service stopping sync" (Some a)]) s) a)
    as (Ho & Hs & _ & Ht & _ & Hdb & _).
  unfold try_except, log, log_uncaught_errors, emit,
    mbind, mret, M_bind, M_ret, bind, ret, gets, modify, outcome, final in *. simpl in *.
  destruct (stop_sync a env _) as [r s']. simpl in *.
  unfold stop_outcome in Ho. simpl in Ho.
  assert (Hrows : ∀ x, is_Some (db s' !! x) ↔ is_Some (db s !! x)).
  { intros x. rewrite Hdb. destruct (db_down env a); [done|].
    destruct (db s !! a) as [acc|] eqn:Hacc; [|done].
    destruct (decide (x = a)) as [->|Hx].
    - rewrite lookup_insert_eq, Hacc. split; eauto.
    - by rewrite lookup_insert_ne. }
  assert (Hcalls : ∀ extra (P : Prop), calls extra = [] →
    (P → db_errors extra = (if db_down env a then 1 else 0)%nat) →
    ∃ evs, trace s' ++ extra = trace s ++ evs ∧ calls evs = [(OpStop, a)] ∧
           (P → errors_accounted env evs)).
  { intros extra P Hex Herr. eexists. rewrite Ht, <- !app_assoc. split; [reflexivity|].
    unfold errors_accounted, down_calls.
    rewrite !calls_app, !db_errors_app, calls_stop_events, db_errors_stop_events, Hex.
    split; [done|]. intros HP. rewrite (Herr HP).
    simpl. by destruct (db_down env a). }
  pose proof (db_down_split env a) as Hsplit.
  destruct (read_fails env a) eqn:Hrf; subst r; simpl.
  - split; [done|]. split; [done|]. split; [|exact Hrows].
    rewrite <- app_assoc. apply Hcalls; [done|]. by rewrite Hsplit.
  - destruct (db s !! a) as [acc|] eqn:Hacc; simpl.
    + rewrite ?bool_decide_eq_true_2 by eauto.
      destruct (commit_fails env a) eqn:Hcf; simpl.
      * split; [done|]. split; [done|]. split; [|exact Hrows].
        rewrite <- app_assoc. apply Hcalls; [done|]. by rewrite Hsplit.
      * split; [done|]. split; [done|]. split; [|exact Hrows].
        rewrite <- (app_nil_r (trace s')). apply Hcalls; [done|]. by rewrite Hsplit.
    + rewrite ?bool_decide_eq_false_2 by (by intros [? ?]).
      split; [done|]. split; [done|]. split; [|exact Hrows].
      rewrite <- (app_nil_r (trace s')). by apply Hcalls.
Qed.

Lemma reached_ext (f g : Z → bool) l :
  (∀ x, x ∈ l → f x = g x) → reached f l = reached g l ∧ forallb f l = forallb g l.
Proof.
  induction l as [|a l IH]; simpl; [done|]. intros H.
  rewrite (H a) by left. destruct IH as [-> ->]; [|done].
  intros x Hx. apply H. by right.
Qed.

Lemma reached_subset ok l x : x ∈ reached ok l → x ∈ l.
Proof.
  induction l as [|a l IH]; simpl; [done|].
  destruct (ok a); rewrite ?elem_of_cons; [|set_solver].
  intros [->|Hx]; [by left|right; by apply IH].
Qed.

Lemma reached_all ok l : forallb ok l = true → reached ok l = l.
Proof.
  induction l as [|a l IH]; simpl; [done|].
  intros [-> Hl]%andb_true_iff. by rewrite IH.
Qed.

Lemma stop_loop_spec env l s :
  let ok := stop_caught env s in
  let r := for_each l stop_account env s in
  outcome r = (if forallb ok l then Ok tt else Raise AttributeError) ∧
  syncing_accounts (final r) = syncing_accounts s ∖ list_to_set (reached ok l) ∧
  (∃ evs, trace (final r) = trace s ++ evs ∧
          calls evs = (fun x => (OpStop, x)) <$> reached ok l ∧
          (forallb ok l = true → errors_accounted env evs)).
Proof.
  cbv zeta. revert s. induction l as [|a l IH]; intros s.
  { simpl. repeat split; try done; try set_solver.
    exists []. by rewrite app_nil_r. }
  rewrite for_each_cons.
  destruct (stop_account_spec env s a) as (Ho & Hs & (evs & Ht & Hc & Hacc) & Hdb).
  unfold outcome, final in Ho, Hs, Ht, Hdb.
  destruct (stop_account a env s) as [r s1]. simpl in *. subst r.
  destruct (stop_caught env s a) eqn:Hok; simpl.
  - destruct (IH s1) as (Ho' & Hs' & (evs' & Ht' & Hc' & Hacc')).
    destruct (reached_ext (stop_caught env s1) (stop_caught env s) l) as [Hr Hf].
    { intros x _. unfold stop_caught. f_equal. apply bool_decide_ext, Hdb. }
    rewrite Hr, Hf in *.
    split; [done|]. split.
    + rewrite Hs', Hs. set_solver.
    + exists (evs ++ evs'). rewrite Ht', Ht, <- app_assoc. split; [done|].
      split; [by rewrite calls_app, Hc, Hc'|].
      intros Hall. apply errors_accounted_app; [by apply Hacc|by apply Hacc'].
  - split; [done|]. split.
    + rewrite Hs. set_solver.
    + exists evs. by split.
Qed.

Lemma acquire_phase_spec env s :
  let r := acquire_phase env s in
  outcome r = Ok tt ∧
  syncing_accounts (final r) = syncing_accounts s ∧
  db (final r) = db s ∧
  (∀ k, monitors_of k (final r) = monitors_of k s) ∧
  monitors (final r) = monitors s ∧
  (∃ evs, trace (final r) = trace s ++ evs ∧ calls evs = [] ∧
          db_errors evs = 0%nat ∧
          claim_attempted evs =
            stealing_enabled env && negb (overloaded_cpus (cpu_percent env))).
Proof.
  cbv zeta. remember (acquire_phase env s) as r eqn:Hrun. revert Hrun.
  unfold_poll; simpl. repeat (inner_case; simpl).
  all: intros ->; simpl.
  all: split; [done|]; split; [done|]; split; [done|].
  all: split; [by intros []|]; split; [done|].
  all: rewrite <- ?app_assoc; simpl.
  all: first [ by eexists; split; [reflexivity|]
             | by exists []; rewrite app_nil_r ].
Qed.

Lemma poll_spec env s :
  let s1 := final (acquire_phase env s) in
  let D := desired env s1 in
  let R := syncing_accounts s in
  let ok := stop_caught env s in
  let r := poll env s in
  outcome r = (if forallb ok (elements (R ∖ D)) then Ok tt else Raise AttributeError) ∧
  (∀ x, x ∈ syncing_accounts (final r) ↔
        (x ∈ R ∨ (x ∈ D ∧ start_succeeds env s x = true)) ∧
        x ∉ reached ok (elements (R ∖ D))) ∧
  (∃ evs, trace (final r) = trace s ++ evs ∧
          calls evs =
            ((fun x => (OpStart, x)) <$> filter (fun x => x ∉ R) (elements D)) ++
            ((fun x => (OpStop, x)) <$> reached ok (elements (R ∖ D))) ∧
          (forallb ok (elements (R ∖ D)) = true → errors_accounted env evs)).
Proof.
  cbv zeta.
  destruct (acquire_phase_spec env s)
    as (Ho & Hs & Hdb & _ & _ & (evs1 & Ht1 & Hc1 & He1 & _)).
  remember (poll env s) as r eqn:Hrun. revert Hrun.
  unfold poll, converge_phase, accounts_to_sync, assigned, emit,
    mbind, mret, M_bind, M_ret, bind, ret, gets, asks, modify.
  unfold outcome, final in *.
  destruct (acquire_phase env s) as [r1 s1]. simpl in *. subst r1.
  fold (desired env s1).
  set (D := desired env s1).
  set (s2 := set_trace (trace s1 ++ [EvGauge (size D)]) s1).
  destruct (start_loop_spec env (elements D) (NoDup_elements D) s2)
    as (Ho3 & Hs3 & (evs3 & Ht3 & Hc3 & Hacc3) & _ & Hdb3).
  unfold outcome, final in *.
  destruct (for_each (elements D) start_if_needed env s2) as [r3 s3].
  simpl in *. subst r3.
  assert (Hext : ∀ x, start_succeeds env s2 x = start_succeeds env s x).
  { intros x. apply start_succeeds_ext; simpl; by rewrite ?Hdb, ?Hs. }
  assert (Hstop : syncing_accounts s3 ∖ D = syncing_accounts s ∖ D).
  { apply set_eq. intros x. rewrite !elem_of_difference, Hs3, Hs, elem_of_elements.
    naive_solver. }
  rewrite Hstop.
  destruct (stop_loop_spec env (elements (syncing_accounts s ∖ D)) s3)
    as (Ho4 & Hs4 & (evs4 & Ht4 & Hc4 & Hacc4)).
  destruct (reached_ext (stop_caught env s3) (stop_caught env s)
              (elements (syncing_accounts s ∖ D))) as [Hr Hf].
  { intros x _. unfold stop_caught. f_equal. apply bool_decide_ext.
    rewrite Hdb3. simpl. by rewrite Hdb. }
  rewrite Hr, Hf in *.
  unfold outcome, final in *.
  destruct (for_each (elements (syncing_accounts s ∖ D)) stop_account env s3) as [r4 s4].
  simpl in *. intros ->. simpl. split; [done|]. split.
  - intros x. rewrite Hs4, elem_of_difference, elem_of_list_to_set, Hs3, Hs.
    rewrite elem_of_elements, Hext. done.
  - exists (evs1 ++ [EvGauge (size D)] ++ evs3 ++ evs4).
    rewrite Ht4, Ht3. simpl. rewrite Ht1, <- !app_assoc. split; [done|]. split.
    + unfold calls in *. rewrite omap_app, Hc1. simpl.
      by rewrite omap_app, Hc3, Hc4, Hs.
    + intros Hall.
      apply errors_accounted_app; [by unfold errors_accounted; rewrite He1, Hc1|].
      apply (errors_accounted_app env [EvGauge (size D)]); [done|].
      apply errors_accounted_app; [done|by apply Hacc4].
Qed.

(** *** Admission control *)

Lemma over_90_spec u : over_90 u = true ↔ (90 < u)%Q.
Proof.
  unfold over_90. rewrite negb_true_iff, <- not_true_iff_false, Qle_bool_iff.
  split; [apply Qnot_le_lt | apply Qlt_not_le].
Qed.

Lemma overloaded_cpus_spec usage :
  overloaded_cpus usage = true ↔ Forall (fun u => (90 < u)%Q) usage.
Proof.
  unfold overloaded_cpus. induction usage as [|u usage IH]; simpl.
  - split; [constructor|done].
  - rewrite andb_true_iff, Forall_cons, IH, over_90_spec. done.
Qed.

Lemma not_overloaded_spec usage :
  overloaded_cpus usage = false ↔ Exists (fun u => (u <= 90)%Q) usage.
Proof.
  unfold overloaded_cpus. induction usage as [|u usage IH]; simpl.
  - split; [done|]. by intros ?%Exists_nil.
  - rewrite andb_false_iff, Exists_cons, IH. unfold over_90.
    rewrite negb_false_iff, Qle_bool_iff. done.
Qed.

(** C2, as amended.  The acquire phase calls [claim_next] exactly when
    stealing is enabled and some sampled core is at or below 90.0; the load
    test refuses exactly when every sampled core exceeds 90.0, which the
    empty sample does; [95, 95, 10] accepts and [95, 95, 95] refuses. *)
Theorem admission_gate env s :
  (claim_attempted (events_since s (final (acquire_phase env s))) = true ↔
     stealing_enabled env = true ∧
     Exists (fun u => (u <= 90)%Q) (cpu_percent env)) ∧
  (overloaded_cpus (cpu_percent env) = true ↔
     Forall (fun u => (90 < u)%Q) (cpu_percent env)) ∧
  overloaded_cpus [95 # 1; 95 # 1; 10 # 1] = false ∧
  overloaded_cpus [95 # 1; 95 # 1; 95 # 1] = true ∧
  overloaded_cpus [] = true.
Proof.
  split; [|split; [apply overloaded_cpus_spec|done]].
  destruct (acquire_phase_spec env s) as (_ & _ & _ & _ & _ & (evs & Ht & _ & _ & Hc)).
  rewrite (events_since_app _ _ _ Ht), Hc, andb_true_iff, negb_true_iff.
  by rewrite not_overloaded_spec.
Qed.

(** C2 as stated fails on the empty sample: stealing is enabled, and
    [claim_next] is not called. *)
Lemma admission_empty_sample_refused :
  stealing_enabled (sample_env [] no_faults) = true ∧
  claim_attempted
    (events_since (fresh_state ∅ ∅)
       (final (acquire_phase (sample_env [] no_faults) (fresh_state ∅ ∅)))) = false.
Proof. split; reflexivity. Qed.

(** *** stop_sync *)

Lemma killed_cons h hs ms :
  killed (h :: hs) ms = killed hs (alter (with_status Killed) h ms).
Proof. done. Qed.

Lemma killed_lookup hs ms h :
  killed hs ms !! h =
  if bool_decide (h ∈ hs) then with_status Killed <$> ms !! h else ms !! h.
Proof.
  revert ms. induction hs as [|h' hs IH]; intros ms; [done|].
  rewrite killed_cons, IH, list_lookup_alter.
  destruct (decide (h' = h)) as [->|Hne].
  - rewrite (bool_decide_eq_true_2 (h ∈ h :: hs)) by left.
    case_bool_decide; [|done]. by destruct (ms !! h).
  - case_bool_decide as Hin.
    + by rewrite (bool_decide_eq_true_2 (h ∈ h' :: hs)) by (by right).
    + rewrite (bool_decide_eq_false_2 (h ∈ h' :: hs)); [done|].
      by intros [?|?]%elem_of_cons.
Qed.

Lemma recorded_handles_spec s a h :
  h ∈ recorded_handles s a ↔ ∃ k, monitors_of k s !! a = Some h.
Proof.
  unfold recorded_handles. split.
  - rewrite !elem_of_app.
    intros [H|[H|H]]; [exists Email|exists Contacts|exists Events]; simpl.
    all: destruct (_ !! a); simpl in H;
      [apply list_elem_of_singleton in H; by subst | by apply elem_of_nil in H].
  - intros [[] H]; simpl in H; rewrite H; simpl; set_solver.
Qed.

Lemma not_desired_after_unassign env s a m :
  (m = assignments s ∧ assignments s !! a ≠ Some (process_identifier env)) ∨
  m = delete a (assignments s) →
  a ∉ dom (filter (fun kv : Z * string => kv.2 = process_identifier env) m).
Proof.
  intros Hm [v Hv]%elem_of_dom. apply map_lookup_filter_Some in Hv as [Hv Hpid].
  simpl in Hpid. subst v.
  destruct Hm as [[-> Hne]| ->]; [done|]. by rewrite lookup_delete_eq in Hv.
Qed.

Lemma existsb_kills (P : event → bool) (hs : list handle) :
  (∀ h, P (EvKill h) = false) → existsb P (EvKill <$> hs) = false.
Proof.
  intros HP. induction hs as [|h hs IH]; simpl; [done|]. by rewrite HP.
Qed.

(** C5.  When the row of the account is gone, [stop_sync] raises
    [AttributeError]: the monitors are killed and the id has left
    [syncing_accounts], and nothing of the release (marker, commit,
    [unassign]) is done. *)
Theorem stop_sync_missing_row_raises env s a :
  db_down env a = false → db s !! a = None →
  outcome (stop_sync a env s) = Raise AttributeError ∧
  events_since s (final (stop_sync a env s)) =
    [EvCall OpStop a; EvLog Info "Stopping monitors" (Some a)] ++
    (EvKill <$> recorded_handles s a) ∧
  existsb is_unassign (events_since s (final (stop_sync a env s))) = false ∧
  (a ∉ syncing_accounts (final (stop_sync a env s))) ∧
  assignments (final (stop_sync a env s)) = assignments s.
Proof.
  intros Hd Hr.
  destruct (stop_sync_spec env s a) as (Ho & Hs & _ & Ht & _ & _ & _ & Ha & _).
  unfold stop_outcome, stop_events in *. shard_up Hd. rewrite Hr in *.
  rewrite Ho, Hs, Ha, (events_since_app _ _ _ Ht), app_nil_r.
  split; [done|]. split; [done|]. split; [|split; [set_solver|done]].
  rewrite existsb_app. simpl. by apply existsb_kills.
Qed.

Lemma stop_sync_missing_row_witness :
  outcome (stop_sync 1 idle_env rows_gone) = Raise AttributeError.
Proof. by apply (stop_sync_missing_row_raises idle_env rows_gone 1). Defined.

(** C4 as stated fails: account 7 is not syncing, and [stop_sync] clears
    its heartbeat, writes the sync-stopped marker, commits and calls
    [unassign], which takes the account away from this process. *)
Lemma stop_not_running_has_effects :
  (7 ∉ syncing_accounts not_running_7) ∧
  events_since not_running_7 (final (stop_sync 7 idle_env not_running_7)) =
    [EvCall OpStop 7; EvLog Info "Stopping monitors" (Some 7);
     EvClearHeartbeat 7; EvSyncStopped 7 "hostA:0";
     EvLog Info "sync stopped" (Some 7); EvCommit; EvUnassign 7 "hostA:0"] ∧
  assignments not_running_7 !! 7 = Some "hostA:0" ∧
  assignments (final (stop_sync 7 idle_env not_running_7)) !! 7 = None ∧
  sync_marker <$> db (final (stop_sync 7 idle_env not_running_7)) !! 7 =
    Some (Some SyncStopped).
Proof. split; [set_solver|]. repeat split; vm_compute; reflexivity. Qed.

(** C4, as amended.  For an account that is not syncing, whose row exists
    and whose shard answers, [stop_sync] returns the acknowledgment of
    [unassign] and leaves [syncing_accounts] as it is; it kills the handles
    still recorded for the account and no other, so with none recorded the
    dictionaries and the monitors are as before; and it clears the
    heartbeat when the should-run flag is false, writes the sync-stopped
    marker, commits and calls [unassign]. *)
Theorem stop_sync_not_running env s a acc :
  a ∉ syncing_accounts s → db_down env a = false → db s !! a = Some acc →
  let r := stop_sync a env s in
  outcome r = Ok (bool_decide (assignments s !! a = Some (process_identifier env))) ∧
  syncing_accounts (final r) = syncing_accounts s ∧
  events_since s (final r) =
    [EvCall OpStop a; EvLog Info "Stopping monitors" (Some a)] ++
    (EvKill <$> recorded_handles s a) ++ release_events env acc a ∧
  (recorded_handles s a = [] →
     (∀ k, monitors_of k (final r) = monitors_of k s) ∧
     monitors (final r) = monitors s ∧
     existsb is_kill (events_since s (final r)) = false).
Proof.
  intros Hn Hd Hr. cbv zeta.
  destruct (stop_sync_spec env s a) as (Ho & Hs & Hm & Ht & Hms & _).
  unfold stop_outcome, stop_events in *. shard_up Hd. rewrite Hr in *.
  rewrite Ho, Hs, Hms, (events_since_app _ _ _ Ht).
  split; [done|]. split; [set_solver|]. split; [done|].
  intros Hnone. rewrite Hnone. split; [|split; [done|]].
  - intros k. rewrite Hm. apply delete_id.
    destruct (monitors_of k s !! a) as [h|] eqn:Hk; [|done].
    assert (h ∈ recorded_handles s a) as Hin by (apply recorded_handles_spec; eauto).
    rewrite Hnone in Hin. by apply elem_of_nil in Hin.
  - unfold release_events. simpl. by destruct (sync_should_run acc).
Qed.

Lemma stop_sync_not_running_witness :
  syncing_accounts (final (stop_sync 7 idle_env not_running_7)) =
  syncing_accounts not_running_7.
Proof.
  apply (stop_sync_not_running idle_env not_running_7 7 mail_only);
    [set_solver | reflexivity | reflexivity].
Defined.

(** C7 as stated fails.  Account 2 is syncing with its email monitor
    recorded, and the read of its shard fails: [stop_sync] kills the
    monitor and raises [OperationalError]; the sync-stopped marker is not
    written, [unassign] is not called and the account is still assigned to
    this process. *)
Lemma stop_sync_shard_down_no_release :
  2 ∈ syncing_accounts running_123 ∧
  email_sync_monitors running_123 !! 2 = Some 1%nat ∧
  outcome (stop_sync 2 shard_2_down running_123) = Raise OperationalError ∧
  events_since running_123 (final (stop_sync 2 shard_2_down running_123)) =
    [EvCall OpStop 2; EvLog Info "Stopping monitors" (Some 2); EvKill 1] ∧
  sync_marker <$> db (final (stop_sync 2 shard_2_down running_123)) !! 2 =
    Some (Some SyncStarted) ∧
  assignments (final (stop_sync 2 shard_2_down running_123)) !! 2 = Some "hostA:0".
Proof.
  split; [apply elem_of_elements; vm_compute; repeat constructor|].
  repeat split; vm_compute; reflexivity.
Qed.

(** C7, as amended.  For an account that is syncing, whose row exists and
    whose shard answers, [stop_sync] returns the acknowledgment of [unassign]; every
    handle recorded for the account in the three dictionaries gets
    [kill()]; the account is in none of the dictionaries and not in
    [syncing_accounts] afterwards; its heartbeat is cleared when the
    should-run flag of the row read again is false, and only then; the row
    with the sync-stopped marker is committed; and [unassign] is called, so
    that the account is not in the desired set of this process any more. *)
Theorem stop_sync_postcondition env s a acc :
  a ∈ syncing_accounts s → db_down env a = false → db s !! a = Some acc →
  let pid := process_identifier env in
  let r := stop_sync a env s in
  let evs := events_since s (final r) in
  outcome r = Ok (bool_decide (assignments s !! a = Some pid)) ∧
  (∀ k h, monitors_of k s !! a = Some h →
          EvKill h ∈ evs ∧
          monitors (final r) !! h = with_status Killed <$> monitors s !! h) ∧
  (∀ k, monitors_of k (final r) !! a = None) ∧
  (a ∉ syncing_accounts (final r)) ∧
  (if sync_should_run acc
   then (EvClearHeartbeat a ∉ evs) ∧ heartbeats (final r) = heartbeats s
   else EvClearHeartbeat a ∈ evs ∧ a ∉ heartbeats (final r)) ∧
  db (final r) !! a = Some (fst (sync_stopped pid acc)) ∧
  sync_marker (fst (sync_stopped pid acc)) = Some SyncStopped ∧
  EvSyncStopped a pid ∈ evs ∧ EvCommit ∈ evs ∧
  EvUnassign a pid ∈ evs ∧
  assignments (final r) !! a ≠ Some pid ∧
  a ∉ desired env (final r).
Proof.
  intros Hn Hd Hr. cbv zeta.
  destruct (stop_sync_spec env s a)
    as (Ho & Hs & Hm & Ht & Hms & Hdb & Hhb & Ha & _).
  unfold stop_outcome, stop_events in *. shard_up Hd. rewrite Hr in *.
  rewrite (events_since_app _ _ _ Ht), Ho, Hs, Hms, Hdb, Hhb. clear Ht Ho Hs Hms Hdb Hhb.
  split; [done|]. split; [|split; [|split; [|split; [|split; [|split]]]]].
  - intros k h Hk.
    assert (h ∈ recorded_handles s a) as Hin by (apply recorded_handles_spec; eauto).
    split.
    + rewrite !elem_of_app. right. left. apply list_elem_of_fmap. eauto.
    + by rewrite killed_lookup, bool_decide_eq_true_2.
  - intros k. by rewrite Hm, lookup_delete_eq.
  - set_solver.
  - unfold release_events.
    destruct (sync_should_run acc).
    + split; [|done].
      rewrite !elem_of_app, list_elem_of_fmap, !elem_of_cons, !elem_of_nil.
      naive_solver.
    + split; [|set_solver]. rewrite !elem_of_app, !elem_of_cons. naive_solver.
  - by rewrite lookup_insert_eq.
  - done.
  - assert (Hrel : ∀ e, e ∈ [EvSyncStopped a (process_identifier env);
                               EvLog Info "sync stopped" (Some a); EvCommit;
                               EvUnassign a (process_identifier env)] →
                        e ∈ [EvCall OpStop a; EvLog Info "Stopping monitors" (Some a)] ++
                            (EvKill <$> recorded_handles s a) ++ release_events env acc a).
    { intros e He. rewrite !elem_of_app. right. right. unfold release_events.
      rewrite elem_of_app. by right. }
    split; [apply Hrel; set_solver|]. split; [apply Hrel; set_solver|].
    split; [apply Hrel; set_solver|].
    case_bool_decide as Hown.
    + rewrite Ha. split; [by rewrite lookup_delete_eq|].
      apply not_desired_after_unassign with (s := s). by right.
    + rewrite Ha. split; [done|].
      apply not_desired_after_unassign with (s := s). by left.
Qed.

Lemma stop_sync_postcondition_witness :
  1 ∉ syncing_accounts (final (stop_sync 1 idle_env running_123)).
Proof.
  apply (stop_sync_postcondition idle_env running_123 1
           (sync_started (with_sync_host (Some "hostA:0") mail_only))).
  - apply elem_of_elements. vm_compute. repeat constructor.
  - reflexivity.
  - vm_compute. reflexivity.
Defined.

(** *** start_sync *)

Lemma start_events_no_kill env s acc a :
  existsb is_kill (start_events env s acc a) = false.
Proof.
  unfold start_events, launch_events.
  by destruct (applies Email acc), (applies Contacts acc), (applies Events acc).
Qed.

Lemma lookup_app_add {A} (l1 l2 : list A) n :
  (l1 ++ l2) !! (length l1 + n)%nat = l2 !! n.
Proof. rewrite lookup_app_r by lia. f_equal. lia. Qed.

Lemma started_monitors_lookup env s acc a k :
  applies k acc = true →
  (monitors s ++ started_monitors env acc a) !! handle_of s acc k =
  Some (running_monitor env acc a k).
Proof.
  unfold started_monitors, monitor_if, handle_of, monitor_if_any.
  rewrite <- ?Nat.add_assoc.
  destruct k; simpl; intros Hk; rewrite ?Hk.
  - by rewrite <- (Nat.add_0_r (length (monitors s))), lookup_app_add.
  - rewrite lookup_app_add. by destruct (sync_email acc).
  - rewrite lookup_app_add.
    by destruct (sync_email acc), (info_contacts acc && sync_contacts acc).
Qed.

Lemma start_succeeds_intro env s a acc :
  db_down env a = false → a ∉ syncing_accounts s → db s !! a = Some acc →
  start_succeeds env s a = launches_ok env acc a.
Proof.
  intros Hd Hn Hr. unfold start_succeeds.
  by rewrite (read_fails_up _ _ Hd), Hr, bool_decide_eq_true_2.
Qed.

(** The monitors are launched and recorded whether the commits that
    follow succeed or not. *)
Lemma start_sync_launched env s a acc :
  read_fails env a = false → a ∉ syncing_accounts s → db s !! a = Some acc →
  launches_ok env acc a = true →
  let s' := final (start_sync a env s) in
  monitors s' = monitors s ++ started_monitors env acc a ∧
  (∀ k, monitors_of k s' =
        if applies k acc then <[a := handle_of s acc k]> (monitors_of k s)
        else monitors_of k s).
Proof.
  intros Hd Hn Hr. cbv zeta.
  remember (start_sync a env s) as r eqn:Hrun. revert Hrun.
  unfold_obs; unfold_M; simpl.
  destruct (db_down env a), (db_down_at env a); try discriminate Hd; simpl.
  all: rewrite Hr; simpl.
  all: destruct (decide (a ∉ syncing_accounts s)); [simpl|done].
  all: flags acc; repeat (inner_case; simpl).
  all: intros -> ?; try discriminate; simpl.
  all: split; [tidy_monitors; done|].
  all: intros []; simpl; tidy_handles; done.
Qed.




(** C10.  When the email monitor starts and a later monitor of the same
    call raises, [start_sync] returns with the email handle recorded and
    its monitor running while the id is not in [syncing_accounts]; a later
    call that succeeds records a new handle in its place, and the monitor
    of the old handle is still running: the retry killed nothing. *)
Theorem start_sync_not_atomic env env' s a acc :
  db_down env a = false → a ∉ syncing_accounts s → db s !! a = Some acc →
  sync_email acc = true → monitor_fault env Email a = None →
  launches_ok env acc a = false →
  db_down env' a = false → launches_ok env' acc a = true →
  let h := length (monitors s) in
  let s1 := final (start_sync a env s) in
  let s2 := final (start_sync a env' s1) in
  outcome (start_sync a env s) = Ok tt ∧
  email_sync_monitors s1 !! a = Some h ∧
  monitors s1 !! h = Some (running_monitor env acc a Email) ∧
  (a ∉ syncing_accounts s1) ∧
  (∃ h', email_sync_monitors s2 !! a = Some h' ∧ h' ≠ h ∧
         monitors s2 !! h' = Some (running_monitor env acc a Email)) ∧
  monitors s2 !! h = Some (running_monitor env acc a Email) ∧
  existsb is_kill (events_since s s2) = false ∧
  a ∈ syncing_accounts s2.
Proof.
  intros Hd Hn Hr He Hf Hl Hd' Hl'. cbv zeta.
  destruct (start_sync_failure env s a acc Hd Hn Hr Hl)
    as ((evs & Ht & _ & _ & Hk) & Hs & Hdb).
  destruct (start_sync_partial env s a acc Hd Hn Hr He Hf Hl) as (Hmap & Hmon).
  pose proof (start_sync_outcome env s a) as Ho. rewrite Hd in Ho.
  set (s1 := final (start_sync a env s)) in *.
  set (acc1 := with_sync_host (Some (process_identifier env)) acc) in *.
  assert (Hn1 : a ∉ syncing_accounts s1) by (by rewrite Hs).
  assert (Hr1 : db s1 !! a = Some acc1) by (by rewrite Hdb, lookup_insert_eq).
  assert (Hl1 : launches_ok env' acc1 a = true) by exact Hl'.
  destruct (start_sync_success env' s1 a acc1 Hd' Hn1 Hr1 Hl1) as (Hms2 & Hmaps2 & _ & Ht2).
  pose proof (start_sync_syncing env' s1 a) as Hs2.
  rewrite (start_succeeds_intro env' s1 a acc1 Hd' Hn1 Hr1), Hl1 in Hs2.
  set (s2 := final (start_sync a env' s1)) in *.
  pose proof (lookup_lt_Some _ _ _ Hmon) as Hlt.
  split; [done|]. split; [done|]. split; [done|]. split; [done|].
  split; [|split; [|split]].
  - exists (length (monitors s1)). split; [|split; [lia|]].
    + specialize (Hmaps2 Email). simpl in Hmaps2. rewrite He in Hmaps2.
      simpl. by rewrite Hmaps2, lookup_insert_eq.
    + rewrite Hms2.
      pose proof (started_monitors_lookup env' s1 acc1 a Email He) as Hlk.
      simpl in Hlk. exact Hlk.
  - by rewrite Hms2, lookup_app_l.
  - assert (trace s2 = trace s ++ evs ++ start_events env' s1 acc1 a) as Hall
      by (by rewrite Ht2, Ht, <- app_assoc).
    by rewrite (events_since_app _ _ _ Hall), existsb_app, Hk, start_events_no_kill.
  - rewrite Hs2. set_solver.
Qed.

Lemma start_sync_not_atomic_witness :
  email_sync_monitors
    (final (start_sync 10 (sample_env [] contacts_fault) one_account)) !! 10 =
  Some 0%nat.
Proof.
  apply (start_sync_not_atomic (sample_env [] contacts_fault) idle_env
           one_account 10 mail_and_contacts); reflexivity || set_solver.
Defined.

(** *** poll *)

Lemma reached_prefix ok l : ∃ l', l = reached ok l ++ l'.
Proof.
  induction l as [|a l [l' IH]]; simpl; [by exists []|].
  destruct (ok a); [exists l'; simpl; by f_equal | by exists l].
Qed.

Lemma reached_NoDup ok l : NoDup l → NoDup (reached ok l).
Proof.
  destruct (reached_prefix ok l) as [l' Hl]. rewrite Hl at 1.
  by intros [? _]%NoDup_app.
Qed.

(** The calls of a tick: [start_sync] for the accounts to start, then
    [stop_sync] for the accounts to stop that the second loop reaches. *)
Lemma poll_calls env s :
  calls (events_since s (final (poll env s))) =
  ((fun x => (OpStart, x)) <$>
     filter (fun x => x ∉ syncing_accounts s)
       (elements (desired env (final (acquire_phase env s))))) ++
  ((fun x => (OpStop, x)) <$>
     reached (stop_caught env s) (elements (to_stop env s))).
Proof.
  destruct (poll_spec env s) as (_ & _ & (evs & Ht & Hc & _)).
  by rewrite (events_since_app _ _ _ Ht).
Qed.

Lemma poll_start_calls env s a :
  (OpStart, a) ∈ calls (events_since s (final (poll env s))) ↔ a ∈ to_start env s.
Proof.
  rewrite poll_calls, elem_of_app, !list_elem_of_fmap. unfold to_start.
  rewrite elem_of_difference. split.
  - intros [(x & [= <-] & Hx)|(x & [=] & _)].
    apply list_elem_of_filter in Hx as [? Hx]. by apply elem_of_elements in Hx.
  - intros [Hd Hr]. left. exists a. split; [done|].
    apply list_elem_of_filter. split; [done|]. by apply elem_of_elements.
Qed.

Lemma poll_stop_calls env s a :
  (OpStop, a) ∈ calls (events_since s (final (poll env s))) ↔
  a ∈ reached (stop_caught env s) (elements (to_stop env s)).
Proof.
  rewrite poll_calls, elem_of_app, !list_elem_of_fmap. split.
  - by intros [(x & [=] & _)|(x & [= <-] & Hx)].
  - intros Ha. right. by exists a.
Qed.

Lemma poll_calls_NoDup env s :
  NoDup (calls (events_since s (final (poll env s)))).
Proof.
  rewrite poll_calls. apply NoDup_app. split; [|split].
  - apply NoDup_fmap_2; [by intros ?? [=]|]. apply NoDup_filter, NoDup_elements.
  - intros [o x] (y & [= -> ->] & _)%list_elem_of_fmap (z & [=] & _)%list_elem_of_fmap.
  - apply NoDup_fmap_2; [by intros ?? [=]|]. apply reached_NoDup, NoDup_elements.
Qed.

Lemma tick_completes_spec env s :
  tick_completes env s = true ↔
  ∀ a, a ∈ to_stop env s → read_fails env a = false → is_Some (db s !! a).
Proof.
  unfold tick_completes. rewrite forallb_forall. split.
  - intros H a Ha Hd. specialize (H a). unfold stop_caught in H. rewrite Hd in H.
    simpl in H. eapply bool_decide_eq_true_1, H, list_elem_of_In. by apply elem_of_elements.
  - intros H a Ha%list_elem_of_In%elem_of_elements. unfold stop_caught.
    destruct (read_fails env a) eqn:Hd; [done|]. simpl.
    by apply bool_decide_eq_true_2, H.
Qed.

(** The diff of a tick.  [start_sync] is called for the ids of
    [toStart = desiredSet − RunningSet], each once, and for no other id;
    [stop_sync] is called only for ids of [toStop = RunningSet − desiredSet],
    each at most once, in the order the set is iterated, and for all of
    them when no [stop_sync] raises past [poll]; no call is made for an id
    that is both running and desired. *)
Theorem poll_diff_correct env s :
  let cs := calls (events_since s (final (poll env s))) in
  cs = ((fun a => (OpStart, a)) <$>
          filter (fun a => a ∉ syncing_accounts s)
            (elements (desired env (final (acquire_phase env s))))) ++
       ((fun a => (OpStop, a)) <$>
          reached (stop_caught env s) (elements (to_stop env s))) ∧
  NoDup cs ∧
  (∀ a, (OpStart, a) ∈ cs ↔ a ∈ to_start env s) ∧
  (∀ a, (OpStop, a) ∈ cs → a ∈ to_stop env s) ∧
  (tick_completes env s = true →
     outcome (poll env s) = Ok tt ∧ ∀ a, (OpStop, a) ∈ cs ↔ a ∈ to_stop env s) ∧
  (∀ a o, a ∈ syncing_accounts s →
          a ∈ desired env (final (acquire_phase env s)) → (o, a) ∉ cs).
Proof.
  cbv zeta. split; [apply poll_calls|].
  split; [apply poll_calls_NoDup|]. split; [apply poll_start_calls|].
  assert (Hstop : ∀ a, (OpStop, a) ∈ calls (events_since s (final (poll env s))) →
                       a ∈ to_stop env s).
  { intros a Ha%poll_stop_calls%reached_subset. by apply elem_of_elements in Ha. }
  split; [exact Hstop|]. split.
  - intros Hok. destruct (poll_spec env s) as (Ho & _). unfold tick_completes, to_stop in Hok.
    rewrite Hok in Ho. split; [done|]. intros a. rewrite poll_stop_calls.
    unfold to_stop at 1. rewrite (reached_all _ _ Hok). apply elem_of_elements.
  - intros a [] Hr Hd.
    + rewrite poll_start_calls. unfold to_start. set_solver.
    + intros Ha%Hstop. unfold to_stop in Ha. set_solver.
Qed.

Lemma poll_diff_example :
  syncing_accounts view_234 = {[1; 2; 3]} ∧
  desired idle_env (final (acquire_phase idle_env view_234)) = {[2; 3; 4]} ∧
  to_start idle_env view_234 = {[4]} ∧
  to_stop idle_env view_234 = {[1]} ∧
  calls (events_since view_234 (final (poll idle_env view_234))) =
    [(OpStart, 4); (OpStop, 1)].
Proof. repeat split; vm_compute; reflexivity. Qed.

Lemma poll_diff_witness :
  outcome (poll idle_env view_234) = Ok tt.
Proof.
  apply (poll_diff_correct idle_env view_234). vm_compute. reflexivity.
Defined.

(** C1.  Accounts 1 and 2 are syncing, nothing is assigned any more and
    the rows of both are gone: [toStop] is {1, 2}, and [poll] calls
    [stop_sync] for one of the two only.  The [AttributeError] of that call
    (line 218) ends the tick; the other account gets no call and stays in
    [syncing_accounts]. *)
Lemma poll_stops_cut_short :
  syncing_accounts rows_gone = {[1; 2]} ∧
  desired idle_env (final (acquire_phase idle_env rows_gone)) = ∅ ∧
  to_stop idle_env rows_gone = {[1; 2]} ∧
  ∃ a b, ({[a; b]} : gset Z) = {[1; 2]} ∧
         calls (events_since rows_gone (final (poll idle_env rows_gone))) =
           [(OpStop, a)] ∧
         b ∈ to_stop idle_env rows_gone ∧
         ((OpStop, b) ∉ calls (events_since rows_gone (final (poll idle_env rows_gone)))) ∧
         b ∈ syncing_accounts (final (poll idle_env rows_gone)).
Proof.
  split; [by vm_compute|]. split; [by vm_compute|]. split; [by vm_compute|].
  exists 2, 1. split; [by vm_compute|]. split; [by vm_compute|].
  split; [apply elem_of_elements; vm_compute; repeat constructor|].
  split.
  - intros H. vm_compute in H. apply list_elem_of_singleton in H. discriminate H.
  - apply elem_of_elements. vm_compute. repeat constructor.
Qed.

(** C8.  In the same tick the failure of one account is not isolated: the
    [AttributeError] of the first [stop_sync] is not caught by [poll], the
    tick is aborted, and the other account is not stopped; it stays in
    [syncing_accounts]. *)
Lemma poll_aborts_on_missing_row :
  to_stop idle_env rows_gone = {[1; 2]} ∧
  outcome (poll idle_env rows_gone) = Raise AttributeError ∧
  length (calls (events_since rows_gone (final (poll idle_env rows_gone)))) = 1%nat ∧
  size (syncing_accounts (final (poll idle_env rows_gone))) = 1%nat.
Proof. repeat split; vm_compute; reflexivity. Qed.

(** Isolation in a tick where no [stop_sync] raises past [poll] (each
    account to stop has its row, or the read of its shard fails and the
    error is an [OperationalError]): [poll] returns; every id of [toStart] and of
    [toStop] gets its call, whatever happens to the others; each call that
    raises [OperationalError] is matched by one error line of [poll] and
    there is no other; an id of [toStart] is in [syncing_accounts]
    afterwards exactly when its own [start_sync] succeeded; every id of
    [toStop] has left [syncing_accounts]; and the ids both running and
    desired stay. *)
Theorem poll_isolation env s :
  tick_completes env s = true →
  let r := poll env s in
  let evs := events_since s (final r) in
  outcome r = Ok tt ∧
  (∀ a, a ∈ to_start env s → (OpStart, a) ∈ calls evs) ∧
  (∀ a, a ∈ to_stop env s → (OpStop, a) ∈ calls evs) ∧
  errors_accounted env evs ∧
  (∀ a, a ∈ to_start env s →
        (a ∈ syncing_accounts (final r) ↔ start_succeeds env s a = true)) ∧
  (∀ a, a ∈ to_stop env s → a ∉ syncing_accounts (final r)) ∧
  (∀ a, a ∈ syncing_accounts s → a ∉ to_stop env s → a ∈ syncing_accounts (final r)).
Proof.
  intros Hok. cbv zeta.
  destruct (poll_spec env s) as (Ho & Hs & (evs & Ht & Hc & Hacc)).
  pose proof Hok as Hok'. unfold tick_completes, to_stop in Hok'.
  rewrite Hok' in Ho. rewrite (reached_all _ _ Hok') in Hs.
  split; [done|]. split; [by intros a; rewrite poll_start_calls|]. split.
  { intros a Ha. rewrite poll_stop_calls. unfold to_stop at 1.
    rewrite (reached_all _ _ Hok'). by apply elem_of_elements. }
  split; [rewrite (events_since_app _ _ _ Ht); by apply Hacc|].
  split; [|split].
  - intros a Ha. unfold to_start in Ha. rewrite Hs, elem_of_elements. set_solver.
  - intros a Ha. rewrite Hs, elem_of_elements. unfold to_stop in Ha. set_solver.
  - intros a Ha Hn. rewrite Hs, elem_of_elements. unfold to_stop in Hn. set_solver.
Qed.

Lemma poll_isolation_example :
  to_start shard_2_down assigned_123 = {[1; 2; 3]} ∧
  outcome (poll shard_2_down assigned_123) = Ok tt ∧
  syncing_accounts (final (poll shard_2_down assigned_123)) = {[1; 3]} ∧
  db_errors (events_since assigned_123 (final (poll shard_2_down assigned_123))) = 1%nat.
Proof. repeat split; vm_compute; reflexivity. Qed.

Lemma poll_isolation_witness :
  outcome (poll shard_2_down assigned_123) = Ok tt.
Proof.
  apply (poll_isolation shard_2_down assigned_123). vm_compute. reflexivity.
Defined.



(** *** Invariant I1 *)

Lemma init_syncing s : syncing_accounts (init s) = ∅.
Proof. done. Qed.

Lemma reachable_invariant s g :
  reachable s g →
  ∀ a, a ∈ syncing_accounts s →
       ∃ acc, g !! a = Some acc ∧
              ∀ k, applies k acc = true → is_Some (monitors_of k s !! a).
Proof.
  induction 1 as [s|env s g a _ IH|env s g a _ IH|s s' g _ IH [Hs Hm]]; intros x Hx.
  - by rewrite init_syncing in Hx.
  - rewrite start_sync_syncing in Hx.
    destruct (start_sync_frame env s a) as (_ & _ & Hmaps & _).
    assert (Hkeep : ∀ k y, is_Some (monitors_of k s !! y) →
                           is_Some (monitors_of k (final (start_sync a env s)) !! y)).
    { intros k y Hy. destruct (Hmaps k) as [->|[h ->]]; [done|].
      destruct (decide (a = y)) as [->|Hne];
        [by rewrite lookup_insert_eq | by rewrite lookup_insert_ne]. }
    destruct (start_succeeds env s a) eqn:Hok.
    + unfold start_succeeds in Hok.
      destruct (read_fails env a) eqn:Hd; [done|].
      destruct (bool_decide (a ∉ syncing_accounts s)) eqn:Hn; [|done].
      apply bool_decide_eq_true in Hn.
      destruct (db s !! a) as [acc|] eqn:Hr; [|done]. simpl in Hok. simpl.
      destruct (start_sync_launched env s a acc Hd Hn Hr Hok) as (_ & Hmaps').
      destruct (decide (x = a)) as [->|Hne].
      * exists acc. rewrite lookup_insert_eq. split; [done|].
        intros k Hk. by rewrite Hmaps', Hk, lookup_insert_eq.
      * assert (x ∈ syncing_accounts s) as Hx' by set_solver.
        destruct (IH x Hx') as (acc' & Hg & Hh). exists acc'.
        rewrite lookup_insert_ne by done. split; [done|].
        intros k Hk. by apply Hkeep, Hh.
    + destruct (IH x Hx) as (acc' & Hg & Hh). exists acc'. split; [done|].
      intros k Hk. by apply Hkeep, Hh.
  - destruct (stop_sync_spec env s a) as (_ & Hs & Hm & _).
    rewrite Hs in Hx. apply elem_of_difference in Hx as [Hx Hne].
    assert (a ≠ x) by set_solver.
    destruct (IH x Hx) as (acc' & Hg & Hh). exists acc'.
    rewrite lookup_delete_ne by done. split; [done|].
    intros k Hk. rewrite Hm, lookup_delete_ne by done. by apply Hh.
  - rewrite Hs in Hx. destruct (IH x Hx) as (acc' & Hg & Hh). exists acc'.
    split; [done|]. intros k Hk. rewrite Hm. by apply Hh.
Qed.

(** C9, invariant I1.  In every state reached from [__init__] by calls of
    [start_sync] and [stop_sync], every id in [syncing_accounts] has a
    handle recorded in one of the three dictionaries, unless none of the
    three capabilities applied to the row [start_sync] read when it put
    the id there. *)
Theorem invariant_I1 s g :
  reachable s g →
  ∀ a, a ∈ syncing_accounts s →
       ∃ acc, g !! a = Some acc ∧
              ((∃ k h, monitors_of k s !! a = Some h) ∨
               (∀ k, applies k acc = false)).
Proof.
  intros Hreach a Ha.
  destruct (reachable_invariant s g Hreach a Ha) as (acc & Hg & Hh).
  exists acc. split; [done|].
  destruct (applies Email acc) eqn:He;
    [left; exists Email; by apply Hh|].
  destruct (applies Contacts acc) eqn:Hc;
    [left; exists Contacts; by apply Hh|].
  destruct (applies Events acc) eqn:Hv;
    [left; exists Events; by apply Hh|].
  right. by intros [].
Qed.

Lemma invariant_I1_witness :
  ∃ acc, ({[ 10 := mail_and_contacts ]} : gmap Z Account) !! 10 = Some acc ∧
         ((∃ k h, monitors_of k (final (start_sync 10 idle_env one_account)) !! 10
                  = Some h) ∨
          (∀ k, applies k acc = false)).
Proof.
  apply (invariant_I1 _ _
           (reach_start idle_env one_account ∅ 10 (reach_init one_account))).
  apply elem_of_elements. vm_compute. left.
Defined.

(** ** Further properties *)

(** *** __init__ *)

Lemma registered_snoc l bmod :
  registered (l ++ [bmod]) =
  match SYNC_MONITOR_CLS bmod with
  | Some cls => <[PROVIDER bmod := cls]> (registered l)
  | None => registered l
  end.
Proof. unfold registered. by rewrite foldl_app. Qed.

Lemma registered_declared l p :
  is_Some (registered l !! p) ↔
  ∃ bmod, bmod ∈ l ∧ PROVIDER bmod = p ∧ is_Some (SYNC_MONITOR_CLS bmod).
Proof.
  induction l as [|bmod l IH] using rev_ind.
  - split; [by intros [? ?]|]. by intros (? & ?%elem_of_nil & _).
  - rewrite registered_snoc. setoid_rewrite elem_of_app.
    setoid_rewrite list_elem_of_singleton.
    destruct (SYNC_MONITOR_CLS bmod) as [cls|] eqn:Hcls.
    + destruct (decide (PROVIDER bmod = p)) as [Hp|Hp].
      * rewrite Hp, lookup_insert_eq. split; [|eauto].
        intros _. exists bmod. rewrite Hcls. eauto.
      * rewrite lookup_insert_ne by done. rewrite IH. split.
        -- intros (m & Hm & ? & ?). eauto.
        -- intros (m & [Hm| ->] & Hpm & Hc); [eauto|done].
    + rewrite IH. split.
      * intros (m & Hm & ? & ?). eauto.
      * intros (m & [Hm| ->] & Hpm & Hc); [eauto|].
        rewrite Hcls in Hc. by destruct Hc.
Qed.

Lemma fill_generic_with_generic providers d g :
  d !! "generic" = Some g →
  ∃ d', fill_generic providers d = inl d' ∧
        (∀ p cls, d !! p = Some cls → d' !! p = Some cls) ∧
        (∀ p, p ∈ providers → d !! p = None → d' !! p = Some g) ∧
        (∀ p, p ∉ providers → d' !! p = d !! p).
Proof.
  revert d. induction providers as [|q rest IH]; intros d Hg; simpl.
  { exists d. split; [done|]. split; [done|]. split; [|done].
    by intros p ?%elem_of_nil. }
  destruct (d !! q) as [c|] eqn:Hq.
  - destruct (IH d Hg) as (d' & -> & Hkeep & Hfill & Hout).
    exists d'. split; [done|]. split; [done|]. split.
    + intros p [->|Hp]%elem_of_cons Hnone; [congruence|by apply Hfill].
    + intros p [? ?]%not_elem_of_cons. by apply Hout.
  - rewrite Hg.
    assert (q ≠ "generic") as Hne by (intros ->; congruence).
    destruct (IH (<[q := g]> d)) as (d' & -> & Hkeep & Hfill & Hout).
    { by rewrite lookup_insert_ne. }
    exists d'. split; [done|]. split; [|split].
    + intros p cls Hp. apply Hkeep. rewrite lookup_insert_ne; [done|].
      intros ->. congruence.
    + intros p [->|Hp]%elem_of_cons Hnone.
      * apply Hkeep. by rewrite lookup_insert_eq.
      * destruct (decide (q = p)) as [->|Hqp].
        -- apply Hkeep. by rewrite lookup_insert_eq.
        -- apply Hfill; [done|]. by rewrite lookup_insert_ne.
    + intros p [? ?]%not_elem_of_cons. rewrite Hout by done.
      by rewrite lookup_insert_ne.
Qed.

(** X1.  When a backend module declares a monitor class for ["generic"],
    [__init__] gives every provider a monitor class and raises nothing: a
    provider some module declares a class for keeps the registered class,
    every other provider of [providers] gets the class of ["generic"], and
    names outside [providers] are as the modules left them. *)
Theorem monitor_cls_for_generic module_registry providers g :
  registered module_registry !! "generic" = Some g →
  ∃ d, monitor_cls_for module_registry providers = inl d ∧
       (∀ p, p ∈ providers → is_Some (d !! p)) ∧
       (∀ p cls, registered module_registry !! p = Some cls → d !! p = Some cls) ∧
       (∀ p, p ∈ providers →
             (¬ ∃ bmod, bmod ∈ module_registry ∧ PROVIDER bmod = p ∧
                       is_Some (SYNC_MONITOR_CLS bmod)) →
             d !! p = Some g) ∧
       (∀ p, p ∉ providers → d !! p = registered module_registry !! p).
Proof.
  intros Hg. unfold monitor_cls_for.
  destruct (fill_generic_with_generic providers _ g Hg) as (d & -> & Hkeep & Hfill & Hout).
  exists d. split; [done|]. split; [|split; [done|split; [|done]]].
  - intros p Hp. destruct (registered module_registry !! p) as [c|] eqn:Hc.
    + rewrite (Hkeep p c Hc). eauto.
    + rewrite (Hfill p Hp Hc). eauto.
  - intros p Hp Hnone. apply Hfill; [done|].
    destruct (registered module_registry !! p) eqn:Hc; [|done].
    destruct Hnone. apply registered_declared. rewrite Hc. eauto.
Qed.

Lemma monitor_cls_for_generic_witness :
  ∃ d, monitor_cls_for sample_registry sample_providers = inl d ∧
       (∀ p, p ∈ sample_providers → is_Some (d !! p)) ∧
       (∀ p cls, registered sample_registry !! p = Some cls → d !! p = Some cls) ∧
       (∀ p, p ∈ sample_providers →
             (¬ ∃ bmod, bmod ∈ sample_registry ∧ PROVIDER bmod = p ∧
                       is_Some (SYNC_MONITOR_CLS bmod)) →
             d !! p = Some "ImapSyncMonitor") ∧
       (∀ p, p ∉ sample_providers → d !! p = registered sample_registry !! p).
Proof.
  apply (monitor_cls_for_generic sample_registry sample_providers "ImapSyncMonitor").
  vm_compute. reflexivity.
Defined.

Lemma fill_generic_without_generic providers d :
  d !! "generic" = None →
  fill_generic providers d =
  if forallb (fun p => bool_decide (is_Some (d !! p))) providers
  then inl d else inr (KeyError "generic").
Proof.
  intros Hg. induction providers as [|q rest IH]; simpl; [done|].
  destruct (d !! q) as [c|] eqn:Hq; simpl.
  - by rewrite IH.
  - by rewrite Hg.
Qed.

(** X2.  When no backend module declares a class for ["generic"],
    [__init__] raises [KeyError('generic')] as soon as one provider has no
    class of its own; when every provider has one, the dictionary of the
    modules is left as it is. *)
Theorem monitor_cls_for_no_generic module_registry providers :
  registered module_registry !! "generic" = None →
  monitor_cls_for module_registry providers =
  if forallb (fun p => bool_decide (is_Some (registered module_registry !! p))) providers
  then inl (registered module_registry)
  else inr (KeyError "generic").
Proof. apply fill_generic_without_generic. Qed.

Lemma monitor_cls_for_no_generic_witness :
  monitor_cls_for no_generic_registry sample_providers = inr (KeyError "generic").
Proof.
  rewrite (monitor_cls_for_no_generic no_generic_registry sample_providers);
    vm_compute; reflexivity.
Defined.

(** *** start_sync and stop_sync, case by case *)

Lemma start_sync_missing env s a :
  db_down env a = false → db s !! a = None →
  start_sync a env s =
  (Ok tt, set_trace (trace s ++ [EvCall OpStart a;
                                 EvLog Error "no such account" (Some a);
                                 EvCommit]) s).
Proof.
  intros Hd Hr. unfold_M; simpl. rewrite Hd; simpl. rewrite Hr; simpl.
  f_equal. apply state_eq; simpl; try done.
  - by tidy_db.
  - by tidy_trace.
Qed.

Lemma start_sync_read_fails env s a :
  read_fails env a = true →
  start_sync a env s =
  (Raise OperationalError, set_trace (trace s ++ [EvCall OpStart a]) s).
Proof.
  intros Hd. unfold start_sync, with_semaphore, session_scope, query_get,
    emit, mbind, mret, M_bind, M_ret, bind, ret, gets, asks, modify, raise.
  simpl. rewrite Hd; simpl.
  f_equal; try by apply state_eq.
Qed.

(** A commit that fails writes no row. *)
Lemma start_sync_commit_fails env s a :
  commit_fails env a = true → db (final (start_sync a env s)) = db s.
Proof.
  intros Hc. remember (start_sync a env s) as r eqn:Hrun. revert Hrun.
  unfold_obs; unfold_M; simpl.
  repeat (inner_case; simpl). all: intros ->; simpl; done.
Qed.

Lemma start_sync_handles env s a k :
  monitors_of k (final (start_sync a env s)) = monitors_of k s ∨
  ∃ h m, monitors_of k (final (start_sync a env s)) = <[a := h]> (monitors_of k s) ∧
         monitors (final (start_sync a env s)) !! h = Some m ∧
         m_kind m = k ∧ m_account m = a.
Proof.
  remember (start_sync a env s) as r eqn:Hrun. revert Hrun.
  unfold_obs; unfold_M; simpl.
  destruct (db_down env a), (db_down_at env a); simpl; try (intros ->; by left).
  all: destruct (db s !! a) as [acc|]; simpl; [|intros ->; by left].
  all: flags acc; repeat (inner_case; simpl).
  all: intros ->; simpl.
  all: destruct k; simpl; first [by left | right].
  all: eexists _, _; split; [reflexivity|].
  all: tidy_handles; tidy_monitors.
  all: split; [first [rewrite lookup_app_add; reflexivity | by apply list_lookup_middle]|done].
Qed.

(** *** start_sync and stop_sync: edges and frames *)

(** X3.  When the account has no row, [start_sync] logs ['no such account']
    and does nothing else, as its docstring says: it returns normally and
    the state is the one it found, with its call, the log line and the
    commit of an empty session added to the trace. *)
Theorem start_sync_no_such_account env s a :
  db_down env a = false → db s !! a = None →
  let r := start_sync a env s in
  outcome r = Ok tt ∧
  events_since s (final r) =
    [EvCall OpStart a; EvLog Error "no such account" (Some a); EvCommit] ∧
  syncing_accounts (final r) = syncing_accounts s ∧
  (∀ k, monitors_of k (final r) = monitors_of k s) ∧
  monitors (final r) = monitors s ∧
  db (final r) = db s.
Proof.
  intros Hd Hr. cbv zeta. rewrite (start_sync_missing env s a Hd Hr). simpl.
  split; [done|]. split; [by apply events_since_app|].
  split; [done|]. split; [by intros []|done].
Qed.

Lemma start_sync_no_such_account_witness :
  outcome (start_sync 5 idle_env one_account) = Ok tt.
Proof.
  apply (start_sync_no_such_account idle_env one_account 5); reflexivity.
Defined.

Lemma commit_fails_read env a : commit_fails env a = true → read_fails env a = false.
Proof.
  unfold commit_fails, read_fails.
  by destruct (db_down env a), (db_down_at env a).
Qed.

(** X4.  [start_sync] lets no exception of a monitor escape: it raises
    exactly when the shard of the account is down, and what it raises is
    [OperationalError].  When the read of the row fails, nothing has been
    changed.  When the row is read and the commits fail, no row is written,
    but what the call did before the commit stays: the id is in
    [syncing_accounts] when every monitor started, and the monitors it
    launched are recorded and running. *)
Theorem start_sync_exceptions env s a :
  let r := start_sync a env s in
  outcome r = (if db_down env a then Raise OperationalError else Ok tt) ∧
  (read_fails env a = true →
     final r = set_trace (trace s ++ [EvCall OpStart a]) s) ∧
  (commit_fails env a = true →
     db (final r) = db s ∧
     (a ∈ syncing_accounts (final r) ↔
        a ∈ syncing_accounts s ∨ start_succeeds env s a = true) ∧
     ∀ acc, a ∉ syncing_accounts s → db s !! a = Some acc →
            launches_ok env acc a = true →
            ∀ k, applies k acc = true →
                 ∃ h, monitors_of k (final r) !! a = Some h ∧
                      monitors (final r) !! h = Some (running_monitor env acc a k)).
Proof.
  cbv zeta. split; [apply start_sync_outcome|]. split.
  { intros Hd. by rewrite (start_sync_read_fails env s a Hd). }
  intros Hc. split; [by apply start_sync_commit_fails|]. split.
  - rewrite start_sync_syncing. destruct (start_succeeds env s a); set_solver.
  - intros acc Hn Hr Hok k Hk.
    destruct (start_sync_launched env s a acc (commit_fails_read _ _ Hc) Hn Hr Hok)
      as (Hms & Hmaps).
    exists (handle_of s acc k). rewrite Hmaps, Hk, lookup_insert_eq, Hms.
    split; [done|]. by apply started_monitors_lookup.
Qed.

Lemma start_sync_exceptions_witness :
  outcome (start_sync 2 commit_2_down assigned_123) = Raise OperationalError ∧
  2 ∈ syncing_accounts (final (start_sync 2 commit_2_down assigned_123)) ∧
  db (final (start_sync 2 commit_2_down assigned_123)) = db assigned_123.
Proof.
  destruct (start_sync_exceptions commit_2_down assigned_123 2) as (Ho & _ & Hc).
  split; [exact Ho|]. destruct (Hc eq_refl) as (Hdb & Hs & _).
  split; [apply Hs; right; reflexivity|exact Hdb].
Defined.

(** X5.  [start_sync a] touches the account [a] only: for every other
    account the membership in [syncing_accounts], the entries of the three
    dictionaries and the row are as before; the monitors that existed keep
    their state; and the assignment view, the queue and the heartbeats are
    not written. *)
Theorem start_sync_other_accounts env s a b :
  b ≠ a →
  let s' := final (start_sync a env s) in
  (b ∈ syncing_accounts s' ↔ b ∈ syncing_accounts s) ∧
  (∀ k, monitors_of k s' !! b = monitors_of k s !! b) ∧
  db s' !! b = db s !! b ∧
  (∀ h m, monitors s !! h = Some m → monitors s' !! h = Some m) ∧
  assignments s' = assignments s ∧ unclaimed s' = unclaimed s ∧
  heartbeats s' = heartbeats s.
Proof.
  intros Hb. cbv zeta.
  destruct (start_sync_frame env s a) as (_ & (new & Hms) & Hmaps & Hdb & Ha & Hu & Hh & _).
  split; [|split; [|split; [|split]]]; [| | | |done].
  - rewrite start_sync_syncing. destruct (start_succeeds env s a); set_solver.
  - intros k. destruct (Hmaps k) as [->|[h ->]]; [done|]. by rewrite lookup_insert_ne.
  - destruct Hdb as [->|(acc & acc' & _ & ->)]; [done|]. by rewrite lookup_insert_ne.
  - intros h m Hm. rewrite Hms. by apply lookup_app_l_Some.
Qed.

Lemma start_sync_other_accounts_witness :
  db (final (start_sync 1 idle_env view_234)) !! 2 = db view_234 !! 2.
Proof. by apply (start_sync_other_accounts idle_env view_234 1 2). Defined.

(** X6.  Whatever its outcome, [stop_sync] has killed every handle
    recorded for the account and left the account out of
    [syncing_accounts] and of the three dictionaries.  When it raises, no
    row is written, the assignment view is as before and [unassign] was
    not called; the heartbeats are as before unless it is the commit that
    failed: by then the heartbeat of an account that should not run has
    been cleared. *)
Theorem stop_sync_always_clears env s a :
  let r := stop_sync a env s in
  let evs := events_since s (final r) in
  (a ∉ syncing_accounts (final r)) ∧
  (∀ k, monitors_of k (final r) !! a = None) ∧
  (∀ h, h ∈ recorded_handles s a →
        EvKill h ∈ evs ∧
        monitors (final r) !! h = with_status Killed <$> monitors s !! h) ∧
  (∀ e, outcome r = Raise e →
        db (final r) = db s ∧ assignments (final r) = assignments s ∧
        existsb is_unassign evs = false ∧
        (commit_fails env a = false → heartbeats (final r) = heartbeats s)) ∧
  (commit_fails env a = true →
     ∀ acc, db s !! a = Some acc →
            outcome r = Raise OperationalError ∧
            (sync_should_run acc = false →
               (a ∉ heartbeats (final r)) ∧ EvClearHeartbeat a ∈ evs)).
Proof.
  cbv zeta.
  destruct (stop_sync_spec env s a)
    as (Ho & Hs & Hm & Ht & Hms & Hdb & Hhb & Ha & _).
  rewrite (events_since_app _ _ _ Ht), Hs, Hms, Ho, Hdb, Hhb, Ha.
  clear Ho Hs Ht Hms Hdb Hhb Ha.
  split; [set_solver|]. split; [by intros k; rewrite Hm, lookup_delete_eq|].
  split; [|split].
  - intros h Hh. split.
    + unfold stop_events. rewrite !elem_of_app. right. left.
      apply list_elem_of_fmap. eauto.
    + by rewrite killed_lookup, bool_decide_eq_true_2.
  - intros e. unfold stop_outcome, stop_events, scope_events.
    rewrite (db_down_split env a).
    destruct (read_fails env a).
    + intros _. rewrite app_nil_r, existsb_app, existsb_kills by done.
      by repeat split.
    + destruct (db s !! a) as [acc|].
      * destruct (commit_fails env a); [|done]. intros _.
        rewrite !existsb_app, existsb_kills by done.
        repeat split; try done. by destruct (sync_should_run acc).
      * intros _. rewrite app_nil_r, existsb_app, existsb_kills by done.
        destruct (commit_fails env a); by repeat split.
  - intros Hc acc Hr. unfold stop_outcome, stop_events, scope_events.
    rewrite (commit_fails_read _ _ Hc), Hr, Hc. split; [done|].
    intros ->. split; [set_solver|].
    rewrite !elem_of_app, !elem_of_cons. naive_solver.
Qed.

Lemma stop_sync_always_clears_witness :
  outcome (stop_sync 2 commit_2_down running_123) = Raise OperationalError ∧
  (2 ∉ heartbeats (final (stop_sync 2 commit_2_down running_123))).
Proof.
  destruct (stop_sync_always_clears commit_2_down running_123 2) as (_ & _ & _ & _ & Hc).
  destruct (Hc eq_refl (sync_started (with_sync_host (Some "hostA:0") mail_only)))
    as (Ho & Hh); [by vm_compute|].
  split; [exact Ho|]. by apply Hh.
Defined.

(** X7.  [stop_sync a] touches the account [a] only: for every other
    account the membership in [syncing_accounts], the entries of the three
    dictionaries, the row, the assignment and the heartbeat are as before,
    and a monitor whose handle is not recorded for [a] keeps its state. *)
Theorem stop_sync_other_accounts env s a b :
  b ≠ a →
  let s' := final (stop_sync a env s) in
  (b ∈ syncing_accounts s' ↔ b ∈ syncing_accounts s) ∧
  (∀ k, monitors_of k s' !! b = monitors_of k s !! b) ∧
  db s' !! b = db s !! b ∧
  assignments s' !! b = assignments s !! b ∧
  (b ∈ heartbeats s' ↔ b ∈ heartbeats s) ∧
  (∀ h, h ∉ recorded_handles s a → monitors s' !! h = monitors s !! h).
Proof.
  intros Hb. cbv zeta.
  destruct (stop_sync_spec env s a)
    as (_ & Hs & Hm & _ & Hms & Hdb & Hhb & Ha & _).
  rewrite Hs, Hms, Hdb, Hhb, Ha.
  split; [set_solver|]. split; [by intros k; rewrite Hm, lookup_delete_ne|].
  split; [|split; [|split]].
  - destruct (db_down env a); [done|]. destruct (db s !! a); [|done].
    by rewrite lookup_insert_ne.
  - destruct (stop_outcome env s a) as [[]|]; try done. by rewrite lookup_delete_ne.
  - destruct (read_fails env a); [done|]. destruct (db s !! a) as [acc|]; [|done].
    destruct (sync_should_run acc); [done|]. set_solver.
  - intros h Hh. by rewrite killed_lookup, bool_decide_eq_false_2.
Qed.

Lemma stop_sync_other_accounts_witness :
  db (final (stop_sync 1 idle_env view_234)) !! 2 = db view_234 !! 2.
Proof. by apply (stop_sync_other_accounts idle_env view_234 1 2). Defined.

(** *** A start followed by a stop *)

Lemma killed_length hs ms : length (killed hs ms) = length ms.
Proof.
  revert ms. induction hs as [|h hs IH]; intros ms; [done|].
  rewrite killed_cons, IH. apply length_alter.
Qed.

Lemma handle_of_fresh s acc k : (length (monitors s) <= handle_of s acc k)%nat.
Proof. destruct k; unfold handle_of; lia. Qed.

(** X8.  A start that succeeds followed by a stop brings the service back:
    [syncing_accounts] and the three dictionaries are as before the
    start, the monitors that existed are untouched, each monitor the start
    launched is there and killed, none is left running, and the row carries
    the sync-stopped marker. *)
Theorem start_then_stop env env' s a acc :
  db_down env a = false → db_down env' a = false →
  a ∉ syncing_accounts s → db s !! a = Some acc →
  launches_ok env acc a = true →
  (∀ k, monitors_of k s !! a = None) →
  let s1 := final (start_sync a env s) in
  let r := stop_sync a env' s1 in
  outcome r = Ok (bool_decide (assignments s !! a = Some (process_identifier env'))) ∧
  syncing_accounts (final r) = syncing_accounts s ∧
  (∀ k, monitors_of k (final r) = monitors_of k s) ∧
  (∀ h m, monitors s !! h = Some m → monitors (final r) !! h = Some m) ∧
  (∀ k, applies k acc = true →
        monitors (final r) !! handle_of s acc k =
          Some (with_status Killed (running_monitor env acc a k))) ∧
  length (monitors (final r)) = length (monitors s ++ started_monitors env acc a) ∧
  sync_marker <$> db (final r) !! a = Some (Some SyncStopped).
Proof.
  intros Hd Hd' Ha Hrow Hok Hclean. cbv zeta.
  destruct (start_sync_success env s a acc Hd Ha Hrow Hok) as (Hms & Hmaps & Hdb & _).
  destruct (start_sync_frame env s a) as (_ & _ & _ & _ & Hasg & _).
  pose proof (start_sync_syncing env s a) as Hs1.
  rewrite (start_succeeds_intro env s a acc Hd Ha Hrow), Hok in Hs1.
  set (s1 := final (start_sync a env s)) in *.
  destruct (stop_sync_spec env' s1 a) as (Ho & Hs & Hm & _ & Hk & Hdb' & _).
  assert (Hrow1 : db s1 !! a =
            Some (sync_started (with_sync_host (Some (process_identifier env)) acc)))
    by (by rewrite Hdb, lookup_insert_eq).
  assert (Hrec : ∀ h, h ∈ recorded_handles s1 a ↔
                      ∃ k, applies k acc = true ∧ h = handle_of s acc k).
  { intros h. rewrite recorded_handles_spec. split.
    - intros [k Hk']. exists k. rewrite Hmaps in Hk'.
      destruct (applies k acc); [|by rewrite Hclean in Hk'].
      rewrite lookup_insert_eq in Hk'. by injection Hk' as <-.
    - intros (k & Hap & ->). exists k. by rewrite Hmaps, Hap, lookup_insert_eq. }
  split; [|split; [|split; [|split; [|split; [|split]]]]].
  - rewrite Ho. unfold stop_outcome.
    by rewrite (read_fails_up _ _ Hd'), (commit_fails_up _ _ Hd'), Hrow1, Hasg.
  - rewrite Hs, Hs1. set_solver.
  - intros k. rewrite Hm, Hmaps. destruct (applies k acc).
    + rewrite delete_insert_eq. by apply delete_id.
    + by apply delete_id.
  - intros h m Hh. rewrite Hk, killed_lookup, bool_decide_eq_false_2.
    + rewrite Hms. by apply lookup_app_l_Some.
    + intros (k & _ & ->)%Hrec. apply lookup_lt_Some in Hh.
      pose proof (handle_of_fresh s acc k). lia.
  - intros k Hap. rewrite Hk, killed_lookup, bool_decide_eq_true_2 by (apply Hrec; eauto).
    by rewrite Hms, started_monitors_lookup.
  - by rewrite Hk, killed_length, Hms.
  - rewrite Hdb', Hd', Hrow1, lookup_insert_eq. done.
Qed.

Lemma start_then_stop_witness :
  syncing_accounts
    (final (stop_sync 10 idle_env (final (start_sync 10 idle_env one_account)))) =
  syncing_accounts one_account.
Proof.
  apply (start_then_stop idle_env idle_env one_account 10 mail_and_contacts);
    try reflexivity; [by vm_compute|by intros []].
Defined.

(** *** Handle ownership *)

Lemma handles_owned_init s : handles_owned (init s).
Proof. intros [] a h; simpl; by rewrite lookup_empty. Qed.

Lemma handles_owned_start env s a :
  handles_owned s → handles_owned (final (start_sync a env s)).
Proof.
  intros Hown k b h Hlk.
  destruct (start_sync_frame env s a) as (_ & (new & Hms) & _).
  assert (Hold : ∀ h', monitors_of k s !! b = Some h' →
            ∃ m, monitors (final (start_sync a env s)) !! h' = Some m ∧
                 m_kind m = k ∧ m_account m = b).
  { intros h' (m & Hm & Hkm & Ham)%Hown. exists m. rewrite Hms.
    split; [by apply lookup_app_l_Some|done]. }
  destruct (start_sync_handles env s a k) as [Heq|(h' & m & Heq & Hm & Hkm & Ham)];
    rewrite Heq in Hlk; [by apply Hold|].
  destruct (decide (b = a)) as [->|Hne].
  - rewrite lookup_insert_eq in Hlk. injection Hlk as <-. eauto.
  - rewrite lookup_insert_ne in Hlk by done. by apply Hold.
Qed.

Lemma handles_owned_stop env s a :
  handles_owned s → handles_owned (final (stop_sync a env s)).
Proof.
  intros Hown k b h Hlk.
  destruct (stop_sync_spec env s a) as (_ & _ & Hm & _ & Hms & _).
  rewrite Hm in Hlk. destruct (decide (b = a)) as [->|Hne].
  - by rewrite lookup_delete_eq in Hlk.
  - rewrite lookup_delete_ne in Hlk by done.
    destruct (Hown _ _ _ Hlk) as (m & Hmh & Hkm & Ham).
    rewrite Hms, killed_lookup, Hmh. case_bool_decide; simpl; eauto.
Qed.

Lemma handles_owned_run s : run_from_init s → handles_owned s.
Proof.
  induction 1 as [s|env s a _ IH|env s a _ IH|s s' _ IH [_ Hself] Hsame].
  - apply handles_owned_init.
  - by apply handles_owned_start.
  - by apply handles_owned_stop.
  - intros k a h Hlk. rewrite Hself in Hlk.
    destruct (IH _ _ _ Hlk) as (m & Hm & Hkm & Ham).
    specialize (Hsame h). rewrite Hm in Hsame. simpl in Hsame.
    destruct (monitors s' !! h) as [m'|]; [|done].
    injection Hsame as Hk' Ha'. exists m'. by rewrite Hk', Ha', Hkm, Ham.
Qed.

Lemma kill_in_stop_events env s a h :
  EvKill h ∈ stop_events env s a → h ∈ recorded_handles s a.
Proof.
  unfold stop_events, release_events. rewrite !elem_of_app, list_elem_of_fmap.
  intros [Hin|[(h' & Heq & Hin)|Hin]].
  - set_solver.
  - by injection Heq as ->.
  - destruct (read_fails env a); [set_solver|].
    destruct (db s !! a) as [acc|]; [|set_solver].
    unfold scope_events in Hin.
    destruct (commit_fails env a), (sync_should_run acc); simpl in Hin;
      rewrite ?elem_of_cons, elem_of_nil in Hin; naive_solver.
Qed.

(** X9.  In every state of a service from [__init__] on, each handle
    recorded in a dictionary is a monitor of that dictionary's kind
    constructed for that account; so [stop_sync a] kills monitors of the
    account [a] only, and every monitor of another account keeps its
    state. *)
Theorem stop_sync_kills_own_monitors s :
  run_from_init s →
  handles_owned s ∧
  ∀ env a,
    (∀ h, EvKill h ∈ events_since s (final (stop_sync a env s)) →
          ∃ m, monitors s !! h = Some m ∧ m_account m = a) ∧
    (∀ h m, monitors s !! h = Some m → m_account m ≠ a →
            monitors (final (stop_sync a env s)) !! h = Some m).
Proof.
  intros Hown%handles_owned_run. split; [done|]. intros env a.
  destruct (stop_sync_spec env s a) as (_ & _ & _ & Ht & Hms & _).
  rewrite (events_since_app _ _ _ Ht), Hms. split.
  - intros h (k & Hk)%kill_in_stop_events%recorded_handles_spec.
    destruct (Hown _ _ _ Hk) as (m & ? & ? & ?). eauto.
  - intros h m Hm Hne. rewrite killed_lookup, bool_decide_eq_false_2; [done|].
    intros (k & Hk)%recorded_handles_spec.
    destruct (Hown _ _ _ Hk) as (m' & ? & ? & ?). congruence.
Qed.

Lemma stop_sync_kills_own_monitors_witness :
  handles_owned (final (start_sync 10 idle_env one_account)).
Proof.
  apply (stop_sync_kills_own_monitors (final (start_sync 10 idle_env one_account))).
  apply run_start. apply (run_init one_account).
Defined.

(** *** The tick and the queue *)

Lemma desired_spec env s a :
  a ∈ desired env s ↔ assignments s !! a = Some (process_identifier env).
Proof.
  unfold desired. rewrite elem_of_dom. split.
  - intros [v [Hv Hp]%map_lookup_filter_Some]. simpl in Hp. by subst v.
  - intros Ha. exists (process_identifier env). by apply map_lookup_filter_Some.
Qed.

Lemma for_each_preserves {A} (P : State → Prop) (f : A → M unit) (l : list A) env :
  (∀ x s, x ∈ l → P s → P (final (f x env s))) →
  ∀ s, P s → P (final (for_each l f env s)).
Proof.
  induction l as [|x l IH]; intros Hf s Hs; [done|].
  rewrite for_each_cons.
  pose proof (Hf x s (list_elem_of_here _ _) Hs) as Hx.
  unfold final in *. destruct (f x env s) as [[[]|e] s']; simpl in *; [|done].
  apply IH; [|done]. intros y s0 Hy. apply Hf. by apply list_elem_of_further.
Qed.

Lemma start_if_needed_queue env s a :
  assignments (final (start_if_needed a env s)) = assignments s ∧
  unclaimed (final (start_if_needed a env s)) = unclaimed s.
Proof.
  destruct (start_sync_frame env s a) as (_ & _ & _ & _ & Ha & Hu & _).
  unfold start_if_needed, try_except, when, log, log_uncaught_errors, emit,
    mbind, mret, M_bind, M_ret, bind, ret, gets, modify, final in *. simpl.
  case_bool_decide; simpl; [|done].
  destruct (start_sync a env s) as [[[]|e] s']; simpl in *; [done|].
  by destruct (only_operational e).
Qed.

Lemma stop_account_queue env s a :
  assignments s !! a ≠ Some (process_identifier env) →
  assignments (final (stop_account a env s)) = assignments s ∧
  unclaimed (final (stop_account a env s)) = unclaimed s.
Proof.
  intros Hne.
  pose proof (stop_sync_spec env
    (set_trace (trace s ++ [EvLog Info "sync service stopping sync" (Some a)]) s) a)
    as (_ & _ & _ & _ & _ & _ & _ & Ha & _ & Hu).
  assert (Hsame : assignments (final (stop_sync a env
            (set_trace (trace s ++ [EvLog Info "sync service stopping sync" (Some a)]) s)))
          = assignments s).
  { rewrite Ha. unfold stop_outcome. simpl. destruct (read_fails env a); [done|].
    destruct (db s !! a); [|done]. destruct (commit_fails env a); [done|].
    by rewrite bool_decide_eq_false_2. }
  clear Ha. simpl in Hu.
  unfold stop_account, try_except, log, log_uncaught_errors, emit,
    mbind, mret, M_bind, M_ret, bind, ret, gets, modify, final in *. simpl in *.
  destruct (stop_sync a env _) as [[r|e] s']; simpl in *; [done|].
  by destruct (only_operational e).
Qed.

Lemma poll_queue env s :
  assignments (final (poll env s)) = assignments (final (acquire_phase env s)) ∧
  unclaimed (final (poll env s)) = unclaimed (final (acquire_phase env s)).
Proof.
  destruct (acquire_phase_spec env s) as (Ho & _).
  unfold poll, converge_phase, accounts_to_sync, assigned, emit,
    mbind, mret, M_bind, M_ret, bind, ret, gets, asks, modify.
  unfold outcome, final in *.
  destruct (acquire_phase env s) as [r1 s1]. simpl in *. subst r1.
  fold (desired env s1). set (D := desired env s1).
  set (s2 := set_trace (trace s1 ++ [EvGauge (size D)]) s1).
  set (P := fun s' : State => assignments s' = assignments s1 ∧ unclaimed s' = unclaimed s1).
  assert (H3 : P (final (for_each (elements D) start_if_needed env s2))).
  { apply for_each_preserves; [|done]. unfold P. intros x s0 _ [Ha Hu].
    destruct (start_if_needed_queue env s0 x) as [-> ->]. by split. }
  pose proof (start_loop_spec env (elements D) (NoDup_elements D) s2) as (Ho3 & _).
  unfold outcome, final in *.
  destruct (for_each (elements D) start_if_needed env s2) as [r3 s3].
  simpl in *. subst r3.
  apply (for_each_preserves P); [|done]. unfold P.
  intros x s0 [_ Hx]%elem_of_elements%elem_of_difference [Ha Hu].
  destruct (stop_account_queue env s0 x) as [-> ->]; [|by split].
  rewrite Ha. intros Hin. apply Hx. by apply desired_spec.
Qed.

(** X11.  A tick releases no assignment: [poll] stops only accounts that
    are not assigned to this process, for which [unassign] does nothing, so
    the assignment view and the queue after the tick are those the acquire
    phase left, and the desired set is the one the tick worked from. *)
Theorem poll_keeps_assignments env s :
  assignments (final (poll env s)) = assignments (final (acquire_phase env s)) ∧
  unclaimed (final (poll env s)) = unclaimed (final (acquire_phase env s)) ∧
  desired env (final (poll env s)) = desired env (final (acquire_phase env s)).
Proof.
  destruct (poll_queue env s) as [Ha Hu]. split; [done|]. split; [done|].
  unfold desired. by rewrite Ha.
Qed.

Lemma forallb_false {A} (f : A → bool) (l : list A) :
  forallb f l = false → ∃ x, x ∈ l ∧ f x = false.
Proof.
  induction l as [|x l IH]; simpl; [done|].
  destruct (f x) eqn:Hx; simpl.
  - intros (y & Hy & Hf)%IH. exists y. split; [by apply list_elem_of_further|done].
  - intros _. exists x. split; [apply list_elem_of_here|done].
Qed.

(** X12.  The only exception that leaves [poll] is the [AttributeError] of
    a [stop_sync] on an account to stop whose row is gone while the read
    of its shard answers; a tick with no such account returns normally,
    whatever the starts and the database errors of the other calls, at the
    read or at the commit. *)
Theorem poll_exceptions env s :
  (outcome (poll env s) = Ok tt ↔
     ∀ a, a ∈ to_stop env s → read_fails env a = false → is_Some (db s !! a)) ∧
  (∀ e, outcome (poll env s) = Raise e →
        e = AttributeError ∧
        ∃ a, a ∈ to_stop env s ∧ read_fails env a = false ∧ db s !! a = None).
Proof.
  destruct (poll_spec env s) as (Ho & _).
  fold (to_stop env s) in Ho. fold (tick_completes env s) in Ho.
  rewrite <- tick_completes_spec, Ho. split.
  - by destruct (tick_completes env s).
  - intros e. destruct (tick_completes env s) eqn:Htc; [done|].
    intros [= <-]. split; [done|].
    apply forallb_false in Htc as (a & Hin%elem_of_elements & Ha). exists a.
    split; [done|]. unfold stop_caught in Ha.
    apply orb_false_iff in Ha as [Hd Hrow%bool_decide_eq_false_1].
    split; [done|]. destruct (db s !! a); [|done]. destruct Hrow. eauto.
Qed.

(** *** Convergence of the loop *)

Lemma poll_syncing_converged env s :
  tick_completes env s = true →
  (∀ a, a ∈ to_start env s → start_succeeds env s a = true) →
  outcome (poll env s) = Ok tt ∧
  syncing_accounts (final (poll env s)) = desired env (final (acquire_phase env s)).
Proof.
  intros Htc Hstart.
  destruct (poll_spec env s) as (Ho & Hs & _).
  fold (to_stop env s) in Ho, Hs. fold (tick_completes env s) in Ho.
  rewrite Htc in Ho. split; [done|].
  unfold tick_completes in Htc. rewrite (reached_all _ _ Htc) in Hs.
  apply set_eq. intros x. rewrite Hs, elem_of_elements.
  unfold to_stop, to_start in *. specialize (Hstart x).
  rewrite elem_of_difference in Hstart. rewrite elem_of_difference.
  destruct (decide (x ∈ syncing_accounts s)) as [Hr|Hr];
    destruct (decide (x ∈ desired env (final (acquire_phase env s)))) as [Hd|Hd];
    split; tauto.
Qed.

(** X13.  A tick in which every start succeeds and no stop raises past
    [poll] leaves the service converged: afterwards [syncing_accounts] is
    exactly the set of accounts assigned to this process. *)
Theorem poll_converges env s :
  tick_completes env s = true →
  (∀ a, a ∈ to_start env s → start_succeeds env s a = true) →
  outcome (poll env s) = Ok tt ∧
  syncing_accounts (final (poll env s)) = desired env (final (poll env s)).
Proof.
  intros Htc Hstart.
  destruct (poll_syncing_converged env s Htc Hstart) as [Ho Hs].
  destruct (poll_queue env s) as [Ha _].
  split; [done|]. rewrite Hs. unfold desired. by rewrite Ha.
Qed.

Lemma poll_converges_witness :
  outcome (poll idle_env one_account) = Ok tt.
Proof.
  apply (poll_converges idle_env one_account); [reflexivity|].
  intros a Ha.
  replace (to_start idle_env one_account) with ({[10]} : gset Z) in Ha
    by (by vm_compute).
  apply elem_of_singleton in Ha as ->. reflexivity.
Defined.

Lemma start_loop_all_running env l :
  ∀ s, (∀ a, a ∈ l → a ∈ syncing_accounts s) →
  for_each l start_if_needed env s = (Ok tt, s).
Proof.
  induction l as [|a l IH]; intros s Hl; [done|].
  rewrite for_each_cons.
  assert (Ha : start_if_needed a env s = (Ok tt, s)).
  { unfold start_if_needed, when, mbind, mret, M_bind, M_ret, bind, ret, gets. simpl.
    rewrite (bool_decide_eq_false_2 (a ∉ _)); [done|].
    intros Hn. apply Hn, Hl, list_elem_of_here. }
  rewrite Ha. apply IH. intros b Hb. by apply Hl, list_elem_of_further.
Qed.

Lemma poll_at_fixpoint env s :
  syncing_accounts s = desired env (final (acquire_phase env s)) →
  poll env s =
    (Ok tt,
     set_trace (trace (final (acquire_phase env s)) ++
                [EvGauge (size (syncing_accounts s))])
       (final (acquire_phase env s))).
Proof.
  intros Heq.
  destruct (acquire_phase_spec env s) as (Ho & Hs & _).
  unfold poll, converge_phase, accounts_to_sync, assigned, emit,
    mbind, mret, M_bind, M_ret, bind, ret, gets, asks, modify.
  unfold outcome, final in *.
  destruct (acquire_phase env s) as [r1 s1]. simpl in *. subst r1.
  fold (desired env s1). rewrite <- Heq.
  rewrite start_loop_all_running.
  - simpl. rewrite Hs, difference_diag_L, elements_empty. done.
  - intros a Ha%elem_of_elements. simpl. by rewrite Hs.
Qed.

(** X14.  A converged service is a fixed point of the tick: when
    [syncing_accounts] is the desired set the acquire phase leaves, [poll]
    returns normally, calls neither [start_sync] nor [stop_sync], emits
    after the acquire phase the gauge only, and leaves [syncing_accounts],
    the three dictionaries, the monitors and the rows as they were. *)
Theorem poll_fixpoint env s :
  syncing_accounts s = desired env (final (acquire_phase env s)) →
  let s' := final (poll env s) in
  outcome (poll env s) = Ok tt ∧
  events_since (final (acquire_phase env s)) s' =
    [EvGauge (size (syncing_accounts s))] ∧
  calls (events_since s s') = [] ∧
  syncing_accounts s' = syncing_accounts s ∧
  (∀ k, monitors_of k s' = monitors_of k s) ∧
  monitors s' = monitors s ∧ db s' = db s.
Proof.
  intros Heq. cbv zeta. rewrite (poll_at_fixpoint env s Heq).
  destruct (acquire_phase_spec env s)
    as (_ & Hs & Hdb & Hm & Hms & (evs & Ht & Hc & _)).
  simpl. split; [done|]. split; [by apply events_since_app|].
  split; [|split; [done|split; [|by split]]].
  - rewrite (events_since_app s _ (evs ++ [EvGauge (size (syncing_accounts s))])).
    + by rewrite calls_app, Hc.
    + simpl. by rewrite Ht, app_assoc.
  - intros k. rewrite <- Hm. by destruct k.
Qed.

Lemma poll_fixpoint_witness :
  calls (events_since running_123 (final (poll idle_env running_123))) = [].
Proof.
  apply (poll_fixpoint idle_env running_123). by vm_compute.
Defined.

Lemma acquire_phase_idle env s :
  unclaimed s = [] →
  ∃ evs, acquire_phase env s = (Ok tt, set_trace (trace s ++ evs) s) ∧
         forallb idle_event evs = true.
Proof.
  intros Hu. unfold_poll; simpl.
  destruct (stealing_enabled env && negb (overloaded_cpus (cpu_percent env))); simpl.
  - rewrite Hu. simpl. by exists [EvClaimNext (process_identifier env) None].
  - exists []. split; [|done]. f_equal. apply state_eq; try done. simpl.
    by rewrite app_nil_r.
Qed.

Lemma poll_idle env s :
  unclaimed s = [] → syncing_accounts s = desired env s →
  ∃ evs, poll env s = (Ok tt, set_trace (trace s ++ evs) s) ∧
         forallb idle_event evs = true.
Proof.
  intros Hu Heq. destruct (acquire_phase_idle env s Hu) as (evs & Ha & Hevs).
  exists (evs ++ [EvGauge (size (syncing_accounts s))]). split.
  - rewrite poll_at_fixpoint; rewrite Ha; simpl; [|done].
    f_equal. apply state_eq; try done. simpl. by rewrite app_assoc.
  - by rewrite forallb_app, Hevs.
Qed.

Lemma run_impl_succ n env s :
  run_impl (S n) env s =
  match poll env s with
  | (Ok _, s') => run_impl n env s'
  | (Raise e, s') => (Raise e, s')
  end.
Proof. done. Qed.

Lemma run_impl_idle n env :
  ∀ s, unclaimed s = [] → syncing_accounts s = desired env s →
  ∃ evs, run_impl n env s = (Ok tt, set_trace (trace s ++ evs) s) ∧
         forallb idle_event evs = true.
Proof.
  induction n as [|n IH]; intros s Hu Heq.
  - exists []. split; [|done]. simpl. unfold mret, M_ret, ret. f_equal.
    apply state_eq; try done. simpl. by rewrite app_nil_r.
  - destruct (poll_idle env s Hu Heq) as (evs & Hp & Hevs).
    rewrite run_impl_succ, Hp.
    destruct (IH (set_trace (trace s ++ evs) s) Hu Heq) as (evs' & Hr & Hevs').
    exists (evs ++ evs'). split; [|by rewrite forallb_app, Hevs, Hevs'].
    rewrite Hr. f_equal. apply state_eq; try done. simpl. by rewrite app_assoc.
Qed.

(** X15.  Once the service is converged and the queue is empty, the loop
    of [_run_impl] is idle: any number of ticks returns normally and leaves
    the state as it was, the trace growing by the claims that found
    nothing and the gauges only; no monitor is constructed, started or
    killed and no row is written. *)
Theorem run_impl_idle_when_converged n env s :
  unclaimed s = [] → syncing_accounts s = desired env s →
  ∃ evs, run_impl n env s = (Ok tt, set_trace (trace s ++ evs) s) ∧
         forallb idle_event evs = true ∧ calls evs = [].
Proof.
  intros Hu Heq. destruct (run_impl_idle n env s Hu Heq) as (evs & Hr & Hevs).
  exists evs. split; [done|]. split; [done|].
  clear Hr. induction evs as [|e evs IH]; [done|].
  simpl in Hevs. apply andb_true_iff in Hevs as [He Hevs].
  unfold calls in *. simpl. destruct e; try done; by apply IH.
Qed.

Lemma run_impl_idle_when_converged_witness :
  outcome (run_impl 3 idle_env running_123) = Ok tt.
Proof.
  destruct (run_impl_idle_when_converged 3 idle_env running_123) as (evs & -> & _);
    [by vm_compute|by vm_compute|reflexivity].
Defined.

(** X16.  With an empty queue, one tick in which every start succeeds and
    no stop raises past [poll] converges the service, and every later tick
    keeps it so: after any positive number of ticks [_run_impl] has not
    raised and [syncing_accounts] is the set of accounts assigned to this
    process. *)
Theorem run_impl_converges n env s :
  unclaimed s = [] → tick_completes env s = true →
  (∀ a, a ∈ to_start env s → start_succeeds env s a = true) →
  outcome (run_impl (S n) env s) = Ok tt ∧
  syncing_accounts (final (run_impl (S n) env s)) = desired env s ∧
  assignments (final (run_impl (S n) env s)) = assignments s.
Proof.
  intros Hu Htc Hstart.
  destruct (poll_syncing_converged env s Htc Hstart) as [Ho Hs].
  destruct (poll_queue env s) as [Ha Hq].
  destruct (acquire_phase_idle env s Hu) as (evs & Hacq & _).
  rewrite Hacq in Ha, Hq, Hs. unfold desired in Hs. simpl in Ha, Hq, Hs.
  fold (desired env s) in Hs. rewrite run_impl_succ. unfold outcome, final in *.
  destruct (poll env s) as [r s']. simpl in *. subst r.
  assert (Hd : desired env s' = desired env s) by (unfold desired; by rewrite Ha).
  destruct (run_impl_idle n env s') as (evs' & -> & _);
    [by rewrite Hq|by rewrite Hs, Hd|]. simpl. by rewrite Hs, Ha.
Qed.

Lemma run_impl_converges_witness :
  outcome (run_impl 2 idle_env one_account) = Ok tt.
Proof.
  apply (run_impl_converges 1 idle_env one_account); [reflexivity|reflexivity|].
  intros a Ha.
  replace (to_start idle_env one_account) with ({[10]} : gset Z) in Ha
    by (by vm_compute).
  apply elem_of_singleton in Ha as ->. reflexivity.
Defined.

(** *** Claiming and the first tick *)

Lemma acquire_phase_claim env s a q :
  stealing_enabled env = true → overloaded_cpus (cpu_percent env) = false →
  unclaimed s = a :: q →
  acquire_phase env s =
    (Ok tt,
     set_trace
       (trace s ++ EvClaimNext (process_identifier env) (Some a) ::
          (if Z.eqb a 0 then []
           else [EvLog Info "Claimed new account sync" (Some a)]))
       (set_unclaimed q
          (if claim_visible env a
           then set_assignments (<[a := process_identifier env]> (assignments s)) s
           else s))).
Proof.
  intros Hst Hov Hu. unfold_poll; simpl. rewrite Hst, Hov. simpl. rewrite Hu. simpl.
  destruct (Z.eqb a 0), (claim_visible env a); simpl; f_equal;
    apply state_eq; try done; simpl; by rewrite <- ?app_assoc.
Qed.

(** X17.  The id [claim_next] returns is only logged, and not when it is 0
    (the test is [if r:]); the assignment view read afterwards decides
    whether the account is started in this tick.  When the view shows the
    claim, the account is among the accounts to sync and, not syncing yet,
    gets its [start_sync] in the same tick.  When the view has not caught
    up and did not give the account to this process before, the tick makes
    no call for it and leaves it out of [syncing_accounts]. *)
Theorem claimed_account_started env s a q :
  stealing_enabled env = true → overloaded_cpus (cpu_percent env) = false →
  unclaimed s = a :: q → a ∉ syncing_accounts s →
  let s1 := final (acquire_phase env s) in
  let r := poll env s in
  let cs := calls (events_since s (final r)) in
  events_since s s1 =
    EvClaimNext (process_identifier env) (Some a) ::
    (if Z.eqb a 0 then [] else [EvLog Info "Claimed new account sync" (Some a)]) ∧
  (claim_visible env a = true →
     a ∈ desired env s1 ∧ (OpStart, a) ∈ cs ∧
     (start_succeeds env s a = true → a ∈ syncing_accounts (final r))) ∧
  (claim_visible env a = false → a ∉ desired env s →
     ((OpStart, a) ∉ cs) ∧ ((OpStop, a) ∉ cs) ∧ a ∉ syncing_accounts (final r)).
Proof.
  intros Hst Hov Hu Hn. cbv zeta.
  pose proof (acquire_phase_claim env s a q Hst Hov Hu) as Hacq.
  split; [rewrite Hacq; by apply events_since_app|].
  destruct (poll_spec env s) as (_ & Hs & _).
  split.
  - intros Hv. rewrite Hv in Hacq.
    assert (Hd : a ∈ desired env (final (acquire_phase env s))).
    { rewrite Hacq. apply desired_spec. simpl. by rewrite lookup_insert_eq. }
    split; [done|]. split.
    + apply poll_start_calls. unfold to_start. by apply elem_of_difference.
    + intros Hok. apply Hs. split; [right; by split|].
      intros Hin%reached_subset%elem_of_elements%elem_of_difference. tauto.
  - intros Hv Hnd. rewrite Hv in Hacq.
    assert (Hd : a ∉ desired env (final (acquire_phase env s))).
    { rewrite Hacq. unfold desired in *. done. }
    split; [|split].
    + rewrite poll_start_calls. unfold to_start. set_solver.
    + rewrite poll_stop_calls.
      intros Hin%reached_subset%elem_of_elements. unfold to_stop in Hin. set_solver.
    + rewrite Hs. tauto.
Qed.

Lemma claimed_account_started_witness :
  (OpStart, 10) ∉ calls (events_since queued_10 (final (poll lagging_env queued_10))).
Proof.
  destruct (claimed_account_started lagging_env queued_10 10 []) as (_ & _ & Hlag);
    [reflexivity|reflexivity|reflexivity|set_solver|].
  apply Hlag; [reflexivity|]. rewrite desired_spec. done.
Defined.

(** X18.  The first tick of a service that [__init__] has just built
    cannot abort and stops nothing: it returns normally, calls
    [start_sync] once for each account assigned to this process and makes
    no [stop_sync] call, and afterwards [syncing_accounts] holds exactly
    the assigned accounts whose start succeeded. *)
Theorem first_tick env s :
  let s0 := init s in
  let D := desired env (final (acquire_phase env s0)) in
  let r := poll env s0 in
  outcome r = Ok tt ∧
  calls (events_since s0 (final r)) = (fun a => (OpStart, a)) <$> elements D ∧
  (∀ a, a ∈ syncing_accounts (final r) ↔ a ∈ D ∧ start_succeeds env s0 a = true).
Proof.
  cbv zeta. destruct (poll_spec env (init s)) as (Ho & Hs & _).
  pose proof (poll_calls env (init s)) as Hc. unfold to_stop in Hc.
  rewrite init_syncing in Ho, Hs, Hc.
  assert (He : ∀ D : gset Z, ∅ ∖ D = ∅) by set_solver.
  rewrite He in Ho, Hs, Hc. clear He.
  rewrite elements_empty in Ho, Hs, Hc. simpl in *.
  split; [done|]. split.
  - rewrite Hc, app_nil_r. f_equal. clear.
    induction (elements _) as [|x l IH]; [done|].
    rewrite filter_cons_True by set_solver. by f_equal.
  - intros a. rewrite Hs, elem_of_empty, elem_of_nil. tauto.
Qed.

(** X19.  A call of [start_sync] for an account that has a row and is not
    syncing yet leaves this process as the [sync_host] of the row, whether
    the monitors start or not: the session is committed when the scope is
    left normally, and [start_sync] catches what the monitors raise.  The
    sync-started marker is written only when every monitor started. *)
Theorem start_sync_claims_host env s a acc :
  db_down env a = false → a ∉ syncing_accounts s → db s !! a = Some acc →
  ∃ acc', db (final (start_sync a env s)) !! a = Some acc' ∧
          sync_host acc' = Some (process_identifier env) ∧
          sync_marker acc' =
            (if launches_ok env acc a then Some SyncStarted else sync_marker acc).
Proof.
  intros Hd Hn Hrow. destruct (launches_ok env acc a) eqn:Hok.
  - destruct (start_sync_success env s a acc Hd Hn Hrow Hok) as (_ & _ & -> & _).
    rewrite lookup_insert_eq. eauto.
  - destruct (start_sync_failure env s a acc Hd Hn Hrow Hok) as (_ & _ & ->).
    rewrite lookup_insert_eq. eauto.
Qed.

Lemma start_sync_claims_host_witness :
  ∃ acc', db (final (start_sync 10 (sample_env [] contacts_fault) one_account)) !! 10
            = Some acc' ∧
          sync_host acc' = Some "hostA:0" ∧
          sync_marker acc' = None.
Proof.
  apply (start_sync_claims_host (sample_env [] contacts_fault) one_account 10
           mail_and_contacts); [reflexivity|set_solver|reflexivity].
Defined.
